(** * distutils.sysconfig (Python 3.2): a shallow embedding

    The development follows [Lib/distutils/sysconfig.py]:
    - [parse_config_h], the reader of [pyconfig.h];
    - [parse_makefile], the reader of the generated [Makefile], with its
      deferred variable interpolation;
    - [expand_makefile_vars];
    - [get_config_vars], the memoised accessor.

    Python [str] values are modelled by [string]; a character is one of the
    256 code points U+0000..U+00FF.  Python [dict]s are finite maps
    ([gmap]); the values of the configuration dictionaries are [int] or
    [str] objects. *)

From Stdlib Require Import ZArith String Ascii List Lia.
From Stdlib Require Import Numbers.DecimalString Numbers.DecimalPos.
From stdpp Require Import gmap strings list fin_maps.

Local Open Scope string_scope.

(** ** Characters *)

Definition code (c : ascii) : nat := nat_of_ascii c.

Definition in_range (lo hi : nat) (c : ascii) : bool :=
  (lo <=? code c)%nat && (code c <=? hi)%nat.

(** [str.isspace] on one character; it is also the class [\s] of [re] for
    [str] patterns and the blank that [int()] skips.  In the Latin-1 range
    these are TAB..CR, FS..US, SPACE, NEL and NBSP. *)
Definition is_space (c : ascii) : bool :=
  in_range 9 13 c || in_range 28 32 c || (code c =? 133)%nat || (code c =? 160)%nat.

Definition is_upper (c : ascii) : bool := in_range 65 90 c.
Definition is_lower (c : ascii) : bool := in_range 97 122 c.
Definition is_alpha (c : ascii) : bool := is_upper c || is_lower c.
Definition is_digit (c : ascii) : bool := in_range 48 57 c.

(** The class [[A-Za-z0-9_]] of the regular expressions. *)
Definition is_name_char (c : ascii) : bool :=
  is_alpha c || is_digit c || Ascii.eqb c "_".

Definition newline : ascii := ascii_of_nat 10.

(** The class [.] of [re] (no DOTALL): everything but a newline. *)
Definition is_dot (c : ascii) : bool := negb (Ascii.eqb c newline).

(** ** [str] operations *)

Fixpoint take_while (p : ascii -> bool) (s : string) : string :=
  match s with
  | String c r => if p c then String c (take_while p r) else ""
  | "" => ""
  end.

Fixpoint drop_while (p : ascii -> bool) (s : string) : string :=
  match s with
  | String c r => if p c then drop_while p r else s
  | "" => ""
  end.

(** [s.lstrip()], [s.rstrip()], [s.strip()] *)
Definition lstrip (s : string) : string := drop_while is_space s.

Fixpoint rstrip (s : string) : string :=
  match s with
  | String c r =>
      match rstrip r with
      | "" => if is_space c then "" else String c ""
      | r' => String c r'
      end
  | "" => ""
  end.

Definition strip (s : string) : string := rstrip (lstrip s).

(** ["$" in s] *)
Fixpoint contains_dollar (s : string) : bool :=
  match s with
  | String c r => Ascii.eqb c "$" || contains_dollar r
  | "" => false
  end.

(** [s.replace('$$', new)]: the occurrences of two dollars are replaced
    from left to right, without overlap. *)
Fixpoint replace_dollar_dollar (new s : string) : string :=
  match s with
  | String c r =>
      match r with
      | String c' r' =>
          if Ascii.eqb c "$" && Ascii.eqb c' "$"
          then new +:+ replace_dollar_dollar new r'
          else String c (replace_dollar_dollar new r)
      | "" => s
      end
  | "" => ""
  end.

(** [s[n:]] *)
Fixpoint slice_from (n : nat) (s : string) : string :=
  match n, s with
  | S n', String _ r => slice_from n' r
  | _, _ => s
  end.

(** [s.startswith(p)] *)
Definition startswith (p s : string) : bool := String.prefix p s.

(** If [s] starts with [p], what follows [p]. *)
Fixpoint after_prefix (p s : string) : option string :=
  match p, s with
  | "", _ => Some s
  | String a p', String b s' => if Ascii.eqb a b then after_prefix p' s' else None
  | String _ _, "" => None
  end.

(** ** [int(s)] and [str(i)] *)

Definition digit_value (c : ascii) : Z := Z.of_nat (code c) - 48.

(** The value of a run of decimal digits; [None] when a character is not a
    digit. *)
Fixpoint digits_value (acc : Z) (s : string) : option Z :=
  match s with
  | String c r =>
      if is_digit c then digits_value (10 * acc + digit_value c) r else None
  | "" => Some acc
  end.

Definition unsigned_value (s : string) : option Z :=
  match s with
  | "" => None
  | _ => digits_value 0 s
  end.

(** [int(s)] in base ten: blanks around, an optional sign, at least one
    digit.  [None] stands for [ValueError]. *)
Definition int_of_str (s : string) : option Z :=
  match strip s with
  | String c r =>
      if Ascii.eqb c "-" then Z.opp <$> unsigned_value r
      else if Ascii.eqb c "+" then unsigned_value r
      else unsigned_value (String c r)
  | "" => None
  end.

(** [str(i)] *)
Definition str_of_int (z : Z) : string := NilEmpty.string_of_int (Z.to_int z).

(** ** The regular expressions

    Each pattern of the module is a sequence of literal characters, greedy
    runs of one character class and groups; in every one of them the
    character that has to follow a run lies outside the class of the run,
    so that the leftmost-longest scan below is what [re] computes (no
    backtracking can succeed). *)

(** A successful [search]: [m_pre] is [s[:m.start()]], [m_group1] is
    [m.group(1)] and [m_post] is [s[m.end():]]. *)
Record match_object := MatchObject {
  m_pre : string;
  m_group1 : string;
  m_post : string
}.

(** The text a reference pattern matched: a dollar, the opening bracket,
    the name, the closing bracket. *)
Definition reference (o c : ascii) (n : string) : string :=
  String "$" (String o (n +:+ String c "")).

(** The pattern of [_findvar1_rx] (a dollar, an opening bracket, a letter,
    any number of letters, digits and underscores, a closing bracket) or,
    with braces, that of [_findvar2_rx], at the start of [s]: the name and
    what follows the match. *)
Definition reference_at (o c : ascii) (s : string) : option (string * string) :=
  match s with
  | String d (String o' (String a r)) =>
      if Ascii.eqb d "$" && Ascii.eqb o' o && is_alpha a then
        match drop_while is_name_char r with
        | String c' post =>
            if Ascii.eqb c' c
            then Some (String a (take_while is_name_char r), post)
            else None
        | "" => None
        end
      else None
  | _ => None
  end.

(** [rx.search(s)] for the two reference patterns: the leftmost match. *)
Fixpoint search (o c : ascii) (s : string) : option match_object :=
  match reference_at o c s with
  | Some (n, post) => Some (MatchObject "" n post)
  | None =>
      match s with
      | String a r =>
          match search o c r with
          | Some m => Some (MatchObject (String a (m_pre m)) (m_group1 m) (m_post m))
          | None => None
          end
      | "" => None
      end
  end.

Definition _findvar1_rx_search : string -> option match_object := search "(" ")".
Definition _findvar2_rx_search : string -> option match_object := search "{" "}".

(** [_findvar1_rx.search(value) or _findvar2_rx.search(value)] *)
Definition find_reference (value : string) : option match_object :=
  match _findvar1_rx_search value with
  | Some m => Some m
  | None => _findvar2_rx_search value
  end.

(** [_variable_rx.match(line)]: a letter and at least one more letter,
    digit or underscore (group 1), blanks, an equals sign, blanks, and the
    rest of the line up to a newline (group 2). *)
Definition _variable_rx_match (line : string) : option (string * string) :=
  match line with
  | String a r =>
      if is_alpha a then
        match take_while is_name_char r with
        | "" => None
        | run =>
            match drop_while is_space (drop_while is_name_char r) with
            | String e r' =>
                if Ascii.eqb e "="
                then Some (String a run, take_while is_dot (drop_while is_space r'))
                else None
            | "" => None
            end
        end
      else None
  | "" => None
  end.

(** A name as [define_rx] and [undef_rx] want it (a capital letter and at
    least one more letter, digit or underscore) at the start of [s]: the
    name and what follows it. *)
Definition macro_name_at (s : string) : option (string * string) :=
  match s with
  | String a r =>
      if is_upper a then
        match take_while is_name_char r with
        | "" => None
        | run => Some (String a run, drop_while is_name_char r)
        end
      else None
  | "" => None
  end.

(** [define_rx.match(line)]: the text [#define], a space, a name
    (group 1), a space, any characters but a newline (group 2), and a
    newline. *)
Definition define_rx_match (line : string) : option (string * string) :=
  match after_prefix "#define " line with
  | Some r =>
      match macro_name_at r with
      | Some (n, r1) =>
          match after_prefix " " r1 with
          | Some r2 =>
              match after_prefix (String newline "") (drop_while is_dot r2) with
              | Some _ => Some (n, take_while is_dot r2)
              | None => None
              end
          | None => None
          end
      | None => None
      end
  | None => None
  end.

(** [undef_rx.match(line)]: the opening of a C comment, a space, the text
    [#undef], a space, a name (group 1), a space, the closing of the
    comment, and a newline. *)
Definition undef_rx_match (line : string) : option string :=
  match after_prefix "/* #undef " line with
  | Some r =>
      match macro_name_at r with
      | Some (n, r1) =>
          match after_prefix (" */" +:+ String newline "") r1 with
          | Some _ => Some n
          | None => None
          end
      | None => None
      end
  | None => None
  end.

(** ** Values, dictionaries, outcomes *)

(** What the configuration dictionaries hold. *)
Inductive value :=
  | VInt (z : Z)
  | VStr (s : string).

(** [str(v)] *)
Definition str (v : value) : string :=
  match v with
  | VInt z => str_of_int z
  | VStr s => s
  end.

(** [int(s)] if it succeeds, else [otherwise]: the [try: v = int(v)] idiom. *)
Definition int_or (s : string) (otherwise : value) : value :=
  match int_of_str s with
  | Some z => VInt z
  | None => otherwise
  end.

Inductive exception :=
  | KeyError (key : string)
  | TypeError
  | OtherError (msg : string).

(** How a call ends: it returns, it raises, or the loop it runs has not
    ended within the given number of rounds. *)
Inductive outcome (A : Type) :=
  | Returns (a : A)
  | Raises (e : exception)
  | OutOfFuel.
Arguments Returns {A} a.
Arguments Raises {A} e.
Arguments OutOfFuel {A}.

#[global] Instance outcome_bind : MBind outcome := fun A B f x =>
  match x with
  | Returns a => f a
  | Raises e => Raises e
  | OutOfFuel => OutOfFuel
  end.

(** ** [parse_config_h] *)

(** One round of the [while True] loop, for a non-empty [line]. *)
Definition parse_config_h_line (g : gmap string value) (line : string)
  : gmap string value :=
  match define_rx_match line with
  | Some (n, v) => <[n := int_or v (VStr v)]> g
  | None =>
      match undef_rx_match line with
      | Some n => <[n := VInt 0]> g
      | None => g
      end
  end.

(** [fp] is given by the lines its [readline()] returns in turn; after the
    last one [readline()] returns the empty string, and the loop stops at
    the first empty line it reads. *)
Fixpoint parse_config_h_loop (fp : list string) (g : gmap string value)
  : gmap string value :=
  match fp with
  | [] => g
  | line :: fp' =>
      if String.eqb line "" then g
      else parse_config_h_loop fp' (parse_config_h_line g line)
  end.

Definition parse_config_h (fp : list string) (g : option (gmap string value))
  : gmap string value :=
  parse_config_h_loop fp (default ∅ g).

(** ** [parse_makefile] *)

(** The two dictionaries of [parse_makefile]: the variables whose value is
    final, and those whose text still holds a dollar. *)
Record state := State {
  done : gmap string value;
  notdone : gmap string string
}.

(** One round of the first loop: [line] is what [fp.readline()] returned. *)
Definition read_line (st : state) (line : string) : state :=
  match _variable_rx_match line with
  | Some (n, v) =>
      let v := strip v in
      let tmpv := replace_dollar_dollar "" v in
      if contains_dollar tmpv then
        State (done st) (<[n := v]> (notdone st))
      else
        State (<[n := int_or v (VStr (replace_dollar_dollar "$" v))]> (done st))
              (notdone st)
  | None => st
  end.

(** The first loop.  [fp] is given by the lines the [TextFile] object
    returns, comments stripped and continuation lines joined, until it
    returns [None]. *)
Definition read_lines (fp : list string) : state :=
  foldl read_line (State ∅ ∅) fp.

Definition renamed_variables : list string := ["CFLAGS"; "LDFLAGS"; "CPPFLAGS"].

(** [name.startswith('PY_') and name[3:] in renamed_variables] *)
Definition is_prefixed_renamed (name : string) : bool :=
  startswith "PY_" name && bool_decide (slice_from 3 name ∈ renamed_variables).

(** The chain of tests that looks the referenced name [n] up, for the
    pending variable [name]: [Some item] when [found] stays true, [None]
    when it is set to false, together with the [done] dictionary
    afterwards. *)
Definition lookup_reference (environ : gmap string string) (name n : string)
    (st : state) : outcome (option string * gmap string value) :=
  match done st !! n with
  | Some v => Returns (Some (str v), done st)
  | None =>
      match notdone st !! n with
      | Some _ => Returns (None, done st)
      | None =>
          match environ !! n with
          | Some item => Returns (Some item, done st)
          | None =>
              if bool_decide (n ∈ renamed_variables) then
                if is_prefixed_renamed name then Returns (Some "", done st)
                else
                  match notdone st !! ("PY_" +:+ n) with
                  | Some _ => Returns (None, done st)
                  | None =>
                      match done st !! ("PY_" +:+ n) with
                      | Some v => Returns (Some (str v), done st)
                      | None => Raises (KeyError ("PY_" +:+ n))
                      end
                  end
              else Returns (Some "", <[n := VStr ""]> (done st))
          end
      end
  end.

(** The [if found:] block: the reference that [m] matched in the value of
    [name] is replaced by [item]. *)
Definition substitute (name : string) (m : match_object) (item : string)
    (st : state) : state :=
  let after := m_post m in
  let value := m_pre m +:+ item +:+ after in
  if contains_dollar after then
    State (done st) (<[name := value]> (notdone st))
  else
    let value' := int_or value (VStr value) in
    let done1 := <[name := int_or value (VStr (strip value))]> (done st) in
    let notdone1 := delete name (notdone st) in
    if is_prefixed_renamed name then
      let name' := slice_from 3 name in
      match done1 !! name' with
      | Some _ => State done1 notdone1
      | None => State (<[name' := value']> done1) notdone1
      end
    else State done1 notdone1.

(** The body of [for name in list(notdone)]. *)
Definition interpolate_name (environ : gmap string string) (name : string)
    (st : state) : outcome state :=
  match notdone st !! name with
  | None => Raises (KeyError name)
  | Some value =>
      match find_reference value with
      | Some m =>
          r ← lookup_reference environ name (m_group1 m) st;
          match r.1 with
          | Some item => Returns (substitute name m item (State r.2 (notdone st)))
          | None => Returns (State r.2 (notdone st))
          end
      | None => Returns (State (done st) (delete name (notdone st)))
      end
  end.

(** One sweep: the [for] loop over the snapshot [names] of the keys. *)
Fixpoint sweep (environ : gmap string string) (names : list string)
    (st : state) : outcome state :=
  match names with
  | [] => Returns st
  | name :: names' =>
      st' ← interpolate_name environ name st;
      sweep environ names' st'
  end.

(** [while notdone:], for at most [fuel] sweeps.  The order in which a
    dictionary lists its keys is left open in Python 3.2; [keys] gives
    it. *)
Fixpoint interpolate (keys : gmap string string -> list string)
    (environ : gmap string string) (fuel : nat) (st : state) : outcome state :=
  if bool_decide (notdone st = ∅) then Returns st
  else
    match fuel with
    | O => OutOfFuel
    | S fuel' =>
        st' ← sweep environ (keys (notdone st)) st;
        interpolate keys environ fuel' st'
    end.

(** [if isinstance(v, str): done[k] = v.strip()] *)
Definition strip_value (v : value) : value :=
  match v with
  | VStr s => VStr (strip s)
  | VInt z => VInt z
  end.

Definition parse_makefile (keys : gmap string string -> list string)
    (environ : gmap string string) (fuel : nat) (fp : list string)
    (g : option (gmap string value)) : outcome (gmap string value) :=
  st ← interpolate keys environ fuel (read_lines fp);
  Returns ((strip_value <$> done st) ∪ default ∅ g).

(** The keys of a dictionary, in the order of [map_to_list]. *)
Definition dict_keys (d : gmap string string) : list string := (map_to_list d).*1.

(** ** [expand_makefile_vars] *)

(** [while True:], for at most [fuel] substitutions;
    [s[0:beg] + vars.get(m.group(1)) + s[end:]] raises [TypeError] unless
    [vars.get] returns a [str]. *)
Fixpoint expand_makefile_vars (fuel : nat) (s : string)
    (vars : gmap string value) : outcome string :=
  match find_reference s with
  | Some m =>
      match fuel with
      | O => OutOfFuel
      | S fuel' =>
          match vars !! m_group1 m with
          | Some (VStr item) =>
              expand_makefile_vars fuel' (m_pre m +:+ item +:+ m_post m) vars
          | Some (VInt _) => Raises TypeError
          | None => Raises TypeError
          end
      end
  | None => Returns s
  end.

(** ** [get_config_vars] *)

(** What the module reads from its platform.  [init_os k] stands for the
    [k]-th run of the function [globals().get("_init_" + os.name)]: [None]
    when the module has no such function; otherwise how the run ends, a
    run that returns having built a new dictionary [g] and assigned it to
    [_config_vars] as its last statement.  [adjust k] stands for the
    [srcdir] and [darwin] adjustments made in place after it: the
    dictionary they leave, and the exception they stop with, if any. *)
Record platform := Platform {
  PREFIX : string;
  EXEC_PREFIX : string;
  init_os : nat -> option (outcome (gmap string value));
  adjust : nat -> gmap string value -> gmap string value * option exception
}.

(** The state of the module: the global [_config_vars] ([None], or the
    address of a dictionary object), the dictionary objects, and a count of
    how often the initialisation was entered. *)
Record module_state := ModuleState {
  _config_vars : option positive;
  heap : gmap positive (gmap string value);
  init_runs : nat
}.

Inductive returned :=
  | TheDict (address : positive)
  | TheList (vals : list (option value)).

(** The body of [if _config_vars is None:]. *)
Definition initialise (p : platform) (s : module_state)
  : outcome unit * module_state :=
  let k := init_runs s in
  let s1 := ModuleState (_config_vars s) (heap s) (S k) in
  match default (Returns ∅) (init_os p k) with
  | Returns g =>
      let address := fresh (dom (heap s)) in
      let g1 := <["exec_prefix" := VStr (EXEC_PREFIX p)]>
                  (<["prefix" := VStr (PREFIX p)]> g) in
      let r := adjust p k g1 in
      (match r.2 with Some e => Raises e | None => Returns () end,
       ModuleState (Some address) (<[address := r.1]> (heap s)) (S k))
  | Raises e => (Raises e, s1)
  | OutOfFuel => (OutOfFuel, s1)
  end.

Definition get_config_vars (p : platform) (args : list string)
    (s : module_state) : outcome returned * module_state :=
  let r := match _config_vars s with
           | None => initialise p s
           | Some _ => (Returns (), s)
           end in
  match r.1 with
  | Returns _ =>
      match _config_vars r.2 with
      | Some address =>
          match args with
          | [] => (Returns (TheDict address), r.2)
          | _ =>
              (Returns (TheList
                 (map (fun name => heap r.2 !! address ≫= fun d => d !! name) args)),
               r.2)
          end
      | None => (Raises TypeError, r.2)
      end
  | Raises e => (Raises e, r.2)
  | OutOfFuel => (OutOfFuel, r.2)
  end.

(** The state after [n] more calls without arguments. *)
Fixpoint after_calls (p : platform) (n : nat) (s : module_state) : module_state :=
  match n with
  | O => s
  | S n' => after_calls p n' (get_config_vars p [] s).2
  end.

(** ** Notions used in the statements *)

Fixpoint all_chars (p : ascii -> bool) (s : string) : bool :=
  match s with
  | String c r => p c && all_chars p r
  | "" => true
  end.

(** A name of [pyconfig.h]: a capital letter, then at least one letter,
    digit or underscore. *)
Definition is_macro_name (n : string) : bool :=
  match n with
  | String a (String b r) => is_upper a && all_chars is_name_char (String b r)
  | _ => false
  end.

(** A name that [_variable_rx] accepts on the left of an assignment: a
    letter, then at least one letter, digit or underscore. *)
Definition is_variable_name (n : string) : bool :=
  match n with
  | String a (String b r) => is_alpha a && all_chars is_name_char (String b r)
  | _ => false
  end.

(** The line [NAME = VALUE], with the blanks [ws1] and [ws2] around the
    equals sign. *)
Definition assignment_line (n ws1 ws2 v : string) : string :=
  n +:+ ws1 +:+ String "=" (ws2 +:+ v).

(** Whether [s] begins with a character of the class [p]. *)
Definition head_in (p : ascii -> bool) (s : string) : bool :=
  match s with
  | String c _ => p c
  | "" => false
  end.

(** A name that [$(NAME)] or [${NAME}] may refer to: a letter, then any
    number of letters, digits and underscores. *)
Definition is_reference_name (n : string) : bool :=
  match n with
  | String a r => is_alpha a && all_chars is_name_char r
  | "" => false
  end.

(** The line [#define NAME VALUE], and what [readline()] may give after
    its newline (nothing, for a real file). *)
Definition define_line (n v rest : string) : string :=
  "#define " +:+ n +:+ " " +:+ v +:+ String newline rest.

(** The line of a commented-out [#undef NAME]. *)
Definition undef_line (n rest : string) : string :=
  "/* #undef " +:+ n +:+ " */" +:+ String newline rest.

(** The three shapes of a line of [pyconfig.h]. *)
Inductive line_form :=
  | Define (n v : string)
  | Undef (n : string)
  | Other.

Inductive has_form : string -> line_form -> Prop :=
  | form_define n v rest :
      is_macro_name n = true -> all_chars is_dot v = true ->
      has_form (define_line n v rest) (Define n v)
  | form_undef n rest :
      is_macro_name n = true ->
      has_form (undef_line n rest) (Undef n)
  | form_other line :
      (forall n v rest, is_macro_name n = true -> all_chars is_dot v = true ->
                        line <> define_line n v rest) ->
      (forall n rest, is_macro_name n = true -> line <> undef_line n rest) ->
      has_form line Other.

(** What a line of each shape does to the mapping. *)
Definition effect (f : line_form) (g : gmap string value) : gmap string value :=
  match f with
  | Define n v => <[n := int_or v (VStr v)]> g
  | Undef n => <[n := VInt 0]> g
  | Other => g
  end.

(** A string that neither begins nor ends with a blank. *)
Fixpoint ends_with_space (s : string) : bool :=
  match s with
  | String c r =>
      match r with
      | "" => is_space c
      | _ => ends_with_space r
      end
  | "" => false
  end.

Definition trimmed (s : string) : Prop :=
  head_in is_space s = false /\ ends_with_space s = false.

(** A reference is a dollar and then this text, which holds no dollar. *)
Definition reference_body (o c : ascii) (n : string) : string :=
  String o (n +:+ String c "").

(** The number of dollars in [s]. *)
Fixpoint count_dollar (s : string) : nat :=
  match s with
  | String c r => (if Ascii.eqb c "$" then 1 else 0) + count_dollar r
  | "" => 0
  end.

(** The brackets of the two reference patterns. *)
Definition is_bracket_pair (o c : ascii) : bool :=
  (Ascii.eqb o "(" && Ascii.eqb c ")") || (Ascii.eqb o "{" && Ascii.eqb c "}").

(** No string of [vars] holds a dollar. *)
Definition values_without_dollar (vars : gmap string value) : bool :=
  forallb (fun kv => match kv.2 with
                     | VStr t => negb (contains_dollar t)
                     | VInt _ => true
                     end)
          (map_to_list vars).


(** Whether [c] is the bracket that opens a reference after a dollar. *)
Definition is_opening (c : ascii) : bool := Ascii.eqb c "(" || Ascii.eqb c "{".

(** Whether every dollar of [s] is followed, in [s], by a character that
    is not an opening bracket: no dollar of [s] is followed by one, and [s]
    does not end with a dollar. *)
Fixpoint dollars_inert (s : string) : bool :=
  match s with
  | String a r =>
      (if Ascii.eqb a "$"
       then match r with
            | String b _ => negb (is_opening b)
            | "" => false
            end
       else true) && dollars_inert r
  | "" => true
  end.


(** Whether every dollar of [s] is followed, in [s], by a character that
    is neither an opening bracket nor white space: a dollar that begins no
    reference, wherever [s] is put, and that [strip] leaves inside. *)
Fixpoint dollars_literal (s : string) : bool :=
  match s with
  | String a r =>
      (if Ascii.eqb a "$"
       then match r with
            | String b _ => negb (is_opening b) && negb (is_space b)
            | "" => false
            end
       else true) && dollars_literal r
  | "" => true
  end.

(** Every string of [vars] is such a string. *)
Definition values_literal (vars : gmap string value) : bool :=
  forallb (fun kv => match kv.2 with
                     | VStr t => dollars_literal t
                     | VInt _ => true
                     end)
          (map_to_list vars).

(** Whether [s] is a run of dollars, possibly empty, and then an opening
    bracket. *)
Fixpoint opens (s : string) : bool :=
  match s with
  | String a r => if Ascii.eqb a "$" then opens r else is_opening a
  | "" => false
  end.

(** The number of dollars of [s] that stand in a run of dollars before
    an opening bracket: those that a reference can begin with, in [s] or
    after a substitution to the right of them. *)
Fixpoint live_dollars (s : string) : nat :=
  match s with
  | String a r => (if Ascii.eqb a "$" && opens r then 1 else 0) + live_dollars r
  | "" => 0
  end.

(** Whether no dollar follows the first reference of [text]: the round
    that resolves this reference then makes the variable final. *)
Definition single_reference (text : string) : bool :=
  match find_reference text with
  | Some m => negb (contains_dollar (m_post m))
  | None => true
  end.

(** The loop ends up dropping a variable with the pending value [text]:
    [text] has no reference, or a dollar follows its first reference and
    the same holds of what follows that reference. *)
Inductive dropped : string -> Prop :=
  | dropped_now text : find_reference text = None -> dropped text
  | dropped_later text m :
      find_reference text = Some m -> contains_dollar (m_post m) = true ->
      dropped (m_post m) -> dropped text.

(** A round on the variable [name] may be put off for [dep] at a reference
    to [n].  [done] does not have [n], and [dep] is [n] itself, or it is
    ["PY_" + n] where [n] is one of the renamed variables, [name] is not
    itself one of them with the prefix, the environment does not have [n],
    and [n] is not pending or will be dropped: a round looks for
    ["PY_" + n] only once [n] is not pending. *)
Definition awaits (environ : gmap string string) (st : state)
    (name n dep : string) : Prop :=
  done st !! n = None /\
  (dep = n \/
   (dep = "PY_" +:+ n /\ n ∈ renamed_variables /\
    is_prefixed_renamed name = false /\ environ !! n = None /\
    forall text, notdone st !! n = Some text -> dropped text)).

(** The value [text] of the pending variable [name] is in order: at each
    reference that the rounds on [name] take, the first one of [text], then
    the first one of what follows it, and so on, the dollars before the
    reference are literal, and every pending variable that the round may
    be put off for ranks below [name]. *)
Inductive ordered (rank : string -> nat) (environ : gmap string string)
    (st : state) (name : string) : string -> Prop :=
  | ordered_end text :
      find_reference text = None -> ordered rank environ st name text
  | ordered_reference text m :
      find_reference text = Some m ->
      dollars_literal (m_pre m) = true ->
      (forall dep, awaits environ st name (m_group1 m) dep ->
                   is_Some (notdone st !! dep) -> (rank dep < rank name)%nat) ->
      ordered rank environ st name (m_post m) ->
      ordered rank environ st name text.

(** Every pending value is in order: the references between the pending
    variables form no cycle. *)
Definition ranked (rank : string -> nat) (environ : gmap string string)
    (st : state) : Prop :=
  forall name text, notdone st !! name = Some text ->
                    ordered rank environ st name text.

(** A test that implies it; [fuel] bounds the number of references. *)
Fixpoint dropped_test (fuel : nat) (text : string) : bool :=
  match find_reference text with
  | None => true
  | Some m =>
      match fuel with
      | O => true
      | S fuel' => contains_dollar (m_post m) && dropped_test fuel' (m_post m)
      end
  end.

Definition awaited (environ : gmap string string) (st : state)
    (name n : string) : list string :=
  if bool_decide (done st !! n = None) then
    n :: (if bool_decide (n ∈ renamed_variables) && negb (is_prefixed_renamed name) &&
             bool_decide (environ !! n = None) &&
             match notdone st !! n with
             | Some text => dropped_test (String.length text) text
             | None => true
             end
          then ["PY_" +:+ n] else [])
  else [].

Fixpoint ordered_test (fuel : nat) (rank : string -> nat)
    (environ : gmap string string) (st : state) (name text : string) : bool :=
  match find_reference text with
  | None => true
  | Some m =>
      match fuel with
      | O => false
      | S fuel' =>
          dollars_literal (m_pre m) &&
          forallb (fun dep => match notdone st !! dep with
                              | Some _ => (rank dep <? rank name)%nat
                              | None => true
                              end)
                  (awaited environ st name (m_group1 m)) &&
          ordered_test fuel' rank environ st name (m_post m)
      end
  end.

Definition well_ranked (rank : string -> nat) (environ : gmap string string)
    (st : state) : bool :=
  forallb (fun kv => ordered_test (String.length kv.2) rank environ st kv.1 kv.2)
          (map_to_list (notdone st)).

(** The number of pending variables and of the dollars in their values
    that stand in a run of dollars before an opening bracket. *)
Definition weight (pending : gmap string string) : nat :=
  sum_list_with (fun kv => S (live_dollars kv.2)) (map_to_list pending).

(** ** [get_config_var] *)

(** [get_config_vars().get(name)] *)
Definition get_config_var (p : platform) (name : string) (s : module_state)
  : outcome (option value) * module_state :=
  let r := get_config_vars p [] s in
  match r.1 with
  | Returns (TheDict address) =>
      (Returns (heap r.2 !! address ≫= fun d => d !! name), r.2)
  | Returns (TheList _) => (Raises (OtherError "AttributeError"), r.2)
  | Raises e => (Raises e, r.2)
  | OutOfFuel => (OutOfFuel, r.2)
  end.

(** ** [customize_compiler] *)

(** [a + b] on what [get_config_vars] returns for a name: [None], an [int]
    or a [str]. *)
Definition py_add (a b : option value) : outcome (option value) :=
  match a, b with
  | Some (VStr x), Some (VStr y) => Returns (Some (VStr (x +:+ y)))
  | Some (VInt x), Some (VInt y) => Returns (Some (VInt (x + y)))
  | _, _ => Raises TypeError
  end.

(** [a + ' ' + b] *)
Definition add_spaced (a b : option value) : outcome (option value) :=
  t ← py_add a (Some (VStr " "));
  py_add t b.

(** The keyword arguments of a call of [compiler.set_executables]. *)
Record executables := Executables {
  preprocessor : option value;
  compiler : option value;
  compiler_so : option value;
  compiler_cxx : option value;
  linker_so : option value;
  linker_exe : option value;
  archiver : option value
}.

(** What [customize_compiler] reads and sets of a [CCompiler] object: its
    type, the last call of [set_executables] if any, and the attribute
    [shared_lib_extension]. *)
Record ccompiler := CCompiler {
  compiler_type : string;
  set_executables : option executables;
  shared_lib_extension : option value
}.

(** The body of [if compiler.compiler_type == "unix":], after the call of
    [get_config_vars]. *)
Definition customize_unix (environ : gmap string string) (cc0 cxx0 opt cflags0
    ccshared ldshared0 so_ext ar0 ar_flags : option value) (c : ccompiler)
  : outcome ccompiler :=
  let env (key : string) := VStr <$> environ !! key in
  let cc := match env "CC" with Some x => Some x | None => cc0 end in
  let cxx := match env "CXX" with Some x => Some x | None => cxx0 end in
  let ldshared := match env "LDSHARED" with Some x => Some x | None => ldshared0 end in
  cpp ← match env "CPP" with
        | Some x => Returns (Some x)
        | None => py_add cc (Some (VStr " -E"))
        end;
  ldshared ← match env "LDFLAGS" with
             | Some x => add_spaced ldshared (Some x)
             | None => Returns ldshared
             end;
  cflags ← match env "CFLAGS" with
           | Some x => add_spaced opt (Some x)
           | None => Returns cflags0
           end;
  ldshared ← match env "CFLAGS" with
             | Some x => add_spaced ldshared (Some x)
             | None => Returns ldshared
             end;
  cpp ← match env "CPPFLAGS" with
        | Some x => add_spaced cpp (Some x)
        | None => Returns cpp
        end;
  cflags ← match env "CPPFLAGS" with
           | Some x => add_spaced cflags (Some x)
           | None => Returns cflags
           end;
  ldshared ← match env "CPPFLAGS" with
             | Some x => add_spaced ldshared (Some x)
             | None => Returns ldshared
             end;
  let ar := match env "AR" with Some x => Some x | None => ar0 end in
  archiver ← match env "ARFLAGS" with
             | Some x => add_spaced ar (Some x)
             | None => add_spaced ar ar_flags
             end;
  cc_cmd ← add_spaced cc cflags;
  cc_so ← add_spaced cc_cmd ccshared;
  Returns (CCompiler (compiler_type c)
             (Some (Executables cpp cc_cmd cc_so cxx ldshared cc archiver))
             so_ext).

Definition customize_compiler (p : platform) (environ : gmap string string)
    (c : ccompiler) (s : module_state) : outcome ccompiler * module_state :=
  if String.eqb (compiler_type c) "unix" then
    let r := get_config_vars p
               ["CC"; "CXX"; "OPT"; "CFLAGS"; "CCSHARED"; "LDSHARED"; "SO";
                "AR"; "ARFLAGS"] s in
    match r.1 with
    | Returns (TheList [cc; cxx; opt; cflags; ccshared; ldshared; so_ext; ar; ar_flags]) =>
        (customize_unix environ cc cxx opt cflags ccshared ldshared so_ext ar
           ar_flags c, r.2)
    | Returns _ => (Raises (OtherError "ValueError"), r.2)
    | Raises e => (Raises e, r.2)
    | OutOfFuel => (OutOfFuel, r.2)
    end
  else (Returns c, s).

(** An addition returns, or raises [TypeError]. *)
Definition adds (x : outcome (option value)) : Prop :=
  x = Raises TypeError \/ exists v, x = Returns v.

(** ** Installation directories *)

(** What the module reads from [os], [os.path] and [sys], and the three
    constants it computes from them when it is imported.  The functions of
    [os.path] are kept as they are found: [os_path_join a ps] stands for
    [os.path.join(a, *ps)], where [a] may be any object that a
    configuration variable holds, or [None]. *)
Record system := System {
  os_name : string;
  sys_version : string;
  sys_executable : string;
  project_base : string;
  python_build : bool;
  build_flags : string;
  os_path_join : option value -> list string -> outcome string;
  os_path_normpath : string -> outcome string;
  os_path_dirname : string -> outcome string;
  os_path_abspath : string -> outcome string
}.

(** A call that reads or assigns the module's globals. *)
Definition stateful (A : Type) : Type := module_state -> outcome A * module_state.

Definition and_then {A B : Type} (c : stateful A) (k : A -> stateful B)
  : stateful B := fun s =>
  let r := c s in
  match r.1 with
  | Returns a => k a r.2
  | Raises e => (Raises e, r.2)
  | OutOfFuel => (OutOfFuel, r.2)
  end.

Definition stateless {A : Type} (x : outcome A) : stateful A := fun s => (x, s).

Definition DistutilsPlatformError (msg : string) : exception :=
  OtherError ("DistutilsPlatformError: " +:+ msg).

(** [sys.version[:3]] *)
Definition get_python_version (y : system) : string :=
  substring 0 3 (sys_version y).

(** [prefix], or [plat_specific and EXEC_PREFIX or PREFIX] if it is [None]. *)
Definition prefix_or_default (p : platform) (plat_specific : bool)
    (prefix : option string) : string :=
  match prefix with
  | Some x => x
  | None =>
      if plat_specific && negb (String.eqb (EXEC_PREFIX p) "")
      then EXEC_PREFIX p else PREFIX p
  end.

Definition get_python_inc (y : system) (p : platform) (plat_specific : bool)
    (prefix : option string) : stateful string :=
  let prefix := prefix_or_default p plat_specific prefix in
  if String.eqb (os_name y) "posix" then
    if python_build y then
      and_then (stateless (a ← os_path_abspath y (sys_executable y);
                           os_path_dirname y a)) (fun base =>
      if plat_specific then stateless (Returns base)
      else
        and_then (get_config_var p "srcdir") (fun srcdir =>
        stateless (incdir ← os_path_join y srcdir ["Include"];
                   os_path_normpath y incdir)))
    else
      stateless (os_path_join y (Some (VStr prefix))
                   ["include"; ("python" +:+ get_python_version y) +:+ build_flags y])
  else if String.eqb (os_name y) "nt" then
    stateless (os_path_join y (Some (VStr prefix)) ["include"])
  else if String.eqb (os_name y) "os2" then
    stateless (os_path_join y (Some (VStr prefix)) ["Include"])
  else
    stateless (Raises (DistutilsPlatformError
      (("I don't know where Python installs its C header files on platform '"
        +:+ os_name y) +:+ "'"))).

Definition get_python_lib (y : system) (p : platform)
    (plat_specific standard_lib : bool) (prefix : option string)
  : outcome string :=
  let prefix := prefix_or_default p plat_specific prefix in
  if String.eqb (os_name y) "posix" then
    libpython ← os_path_join y (Some (VStr prefix))
                  ["lib"; "python" +:+ get_python_version y];
    if standard_lib then Returns libpython
    else os_path_join y (Some (VStr libpython)) ["site-packages"]
  else if String.eqb (os_name y) "nt" then
    if standard_lib then os_path_join y (Some (VStr prefix)) ["Lib"]
    else if String.ltb (get_python_version y) "2.2" then Returns prefix
    else os_path_join y (Some (VStr prefix)) ["Lib"; "site-packages"]
  else if String.eqb (os_name y) "os2" then
    if standard_lib then os_path_join y (Some (VStr prefix)) ["Lib"]
    else os_path_join y (Some (VStr prefix)) ["Lib"; "site-packages"]
  else
    Raises (DistutilsPlatformError
      (("I don't know where Python installs its library on platform '"
        +:+ os_name y) +:+ "'")).

Definition get_config_h_filename (y : system) (p : platform) : stateful string :=
  and_then
    (if python_build y then
       if String.eqb (os_name y) "nt"
       then stateless (os_path_join y (Some (VStr (project_base y))) ["PC"])
       else stateless (Returns (project_base y))
     else get_python_inc y p true None) (fun inc_dir =>
  let config_h :=
    if String.ltb (get_python_version y) "2.2" then "config.h" else "pyconfig.h" in
  stateless (os_path_join y (Some (VStr inc_dir)) [config_h])).

Definition get_makefile_filename (y : system) (p : platform) : outcome string :=
  if python_build y then
    d ← os_path_dirname y (sys_executable y);
    os_path_join y (Some (VStr d)) ["Makefile"]
  else
    lib_dir ← get_python_lib y p true true None;
    let config_file := ("config-" +:+ get_python_version y) +:+ build_flags y in
    os_path_join y (Some (VStr lib_dir)) [config_file; "Makefile"].

(** ** [_init_nt] and [_init_os2] *)

(** [s.replace(".", "")] *)
Fixpoint without_dots (s : string) : string :=
  match s with
  | String c r =>
      if Ascii.eqb c "." then without_dots r else String c (without_dots r)
  | "" => ""
  end.

(** [global _config_vars; _config_vars = g], for a dictionary [g] that the
    function has built. *)
Definition assign_config_vars (g : gmap string value) : stateful unit := fun s =>
  let address := fresh (dom (heap s)) in
  (Returns (), ModuleState (Some address) (<[address := g]> (heap s)) (init_runs s)).

Definition _init_nt (y : system) (p : platform) : stateful unit :=
  and_then (stateless (get_python_lib y p false true None)) (fun libdest =>
  and_then (stateless (get_python_lib y p true true None)) (fun binlibdest =>
  and_then (get_python_inc y p false None) (fun includepy =>
  and_then (stateless (a ← os_path_abspath y (sys_executable y);
                       os_path_dirname y a)) (fun bindir =>
  assign_config_vars
    (<["BINDIR" := VStr bindir]>
       (<["VERSION" := VStr (without_dots (get_python_version y))]>
          (<["EXE" := VStr ".exe"]>
             (<["SO" := VStr ".pyd"]>
                (<["INCLUDEPY" := VStr includepy]>
                   (<["BINLIBDEST" := VStr binlibdest]>
                      (<["LIBDEST" := VStr libdest]> ∅))))))))))).

Definition _init_os2 (y : system) (p : platform) : stateful unit :=
  and_then (stateless (get_python_lib y p false true None)) (fun libdest =>
  and_then (stateless (get_python_lib y p true true None)) (fun binlibdest =>
  and_then (get_python_inc y p false None) (fun includepy =>
  assign_config_vars
    (<["EXE" := VStr ".exe"]>
       (<["SO" := VStr ".pyd"]>
          (<["INCLUDEPY" := VStr includepy]>
             (<["BINLIBDEST" := VStr binlibdest]>
                (<["LIBDEST" := VStr libdest]> ∅)))))))).

(** * Properties *)

(** ** Strings *)

#[local] Arguments String.append !s1 s2 : simpl nomatch.

Lemma str_app_nil_r (s : string) : s +:+ "" = s.
Proof. induction s as [|a s IH]; simpl; [done | by f_equal]. Qed.

Lemma str_app_assoc (s t u : string) : (s +:+ t) +:+ u = s +:+ t +:+ u.
Proof. induction s as [|a s IH]; simpl; [done | by f_equal]. Qed.

Lemma all_chars_app p s t :
  all_chars p (s +:+ t) = all_chars p s && all_chars p t.
Proof.
  induction s as [|a s IH]; simpl; [done |].
  rewrite IH. by destruct (p a).
Qed.

Lemma take_drop_while p s : take_while p s +:+ drop_while p s = s.
Proof.
  induction s as [|a s IH]; simpl; [done |].
  destruct (p a); simpl; [by f_equal | done].
Qed.

Lemma all_chars_take_while p s : all_chars p (take_while p s) = true.
Proof.
  induction s as [|a s IH]; simpl; [done |].
  destruct (p a) eqn:E; simpl; [by rewrite E | done].
Qed.

(** A run of the class followed by a character outside it is taken whole. *)
Lemma take_while_run p run c rest :
  all_chars p run = true -> p c = false ->
  take_while p (run +:+ String c rest) = run.
Proof.
  intros Hrun Hc. induction run as [|a run IH]; simpl in *.
  - by rewrite Hc.
  - apply andb_prop in Hrun as [Ha Hrun]. rewrite Ha. f_equal. by apply IH.
Qed.

Lemma drop_while_run p run c rest :
  all_chars p run = true -> p c = false ->
  drop_while p (run +:+ String c rest) = String c rest.
Proof.
  intros Hrun Hc. induction run as [|a run IH]; simpl in *.
  - by rewrite Hc.
  - apply andb_prop in Hrun as [Ha Hrun]. rewrite Ha. by apply IH.
Qed.

Lemma drop_while_head p s c r : drop_while p s = String c r -> p c = false.
Proof.
  induction s as [|a s IH]; simpl; [done |].
  destruct (p a) eqn:E; [done |]. intros [= <- <-]. done.
Qed.

Lemma after_prefix_app p s : after_prefix p (p +:+ s) = Some s.
Proof.
  induction p as [|a p IH]; simpl; [by destruct s |].
  by rewrite Ascii.eqb_refl.
Qed.

Lemma after_prefix_Some p s r : after_prefix p s = Some r -> s = p +:+ r.
Proof.
  revert s. induction p as [|a p IH]; intros s; simpl.
  - destruct s; by intros [= <-].
  - destruct s as [|b s]; [done |].
    destruct (Ascii.eqb_spec a b) as [<- |]; [| done].
    intros H. f_equal. by apply IH.
Qed.

(** ** The patterns of [parse_config_h] *)

Lemma macro_name_at_app n c rest :
  is_macro_name n = true -> is_name_char c = false ->
  macro_name_at (n +:+ String c rest) = Some (n, String c rest).
Proof.
  intros Hn Hc. destruct n as [|a [|b r]]; try done.
  simpl in Hn. apply andb_prop in Hn as [Ha Hr].
  change (String a (String b r) +:+ String c rest)
    with (String a (String b r +:+ String c rest)).
  unfold macro_name_at.
  rewrite Ha, take_while_run, drop_while_run by done. done.
Qed.

Lemma macro_name_at_Some s n r :
  macro_name_at s = Some (n, r) -> s = n +:+ r /\ is_macro_name n = true.
Proof.
  unfold macro_name_at. destruct s as [|a s]; [done |].
  destruct (is_upper a) eqn:Ha; [| done].
  destruct (take_while is_name_char s) as [|b run] eqn:Hrun; [done |].
  intros [= <- <-]. split.
  - rewrite <- (take_drop_while is_name_char s) at 1. by rewrite Hrun.
  - simpl. rewrite Ha. simpl.
    pose proof (all_chars_take_while is_name_char s) as H.
    by rewrite Hrun in H.
Qed.

Lemma define_rx_match_line n v rest :
  is_macro_name n = true -> all_chars is_dot v = true ->
  define_rx_match (define_line n v rest) = Some (n, v).
Proof.
  intros Hn Hv. unfold define_rx_match, define_line.
  rewrite after_prefix_app.
  change (" " +:+ v +:+ String newline rest)
    with (String " " (v +:+ String newline rest)).
  rewrite macro_name_at_app by done.
  change (after_prefix " " (String " " (v +:+ String newline rest)))
    with (Some (v +:+ String newline rest)).
  cbv beta iota.
  rewrite drop_while_run, take_while_run by done.
  change (String newline rest) with (String newline "" +:+ rest).
  by rewrite after_prefix_app.
Qed.

Lemma define_rx_match_Some line n v :
  define_rx_match line = Some (n, v) ->
  exists rest, line = define_line n v rest /\
               is_macro_name n = true /\ all_chars is_dot v = true.
Proof.
  unfold define_rx_match.
  destruct (after_prefix "#define " line) as [r|] eqn:H0; [| done].
  destruct (macro_name_at r) as [[n' r1]|] eqn:H1; [| done].
  destruct (after_prefix " " r1) as [r2|] eqn:H2; [| done].
  destruct (after_prefix (String newline "") (drop_while is_dot r2))
    as [rest|] eqn:H3; [| done].
  intros [= <- <-]. exists rest.
  apply after_prefix_Some in H0, H2, H3.
  apply macro_name_at_Some in H1 as [H1 Hn].
  split; [| split; [done | apply all_chars_take_while]].
  unfold define_line. rewrite H0, H1, H2. do 2 f_equal.
  change (" " +:+ r2) with (String " " r2). f_equal.
  rewrite <- (take_drop_while is_dot r2) at 1. by rewrite H3.
Qed.

Lemma undef_rx_match_line n rest :
  is_macro_name n = true -> undef_rx_match (undef_line n rest) = Some n.
Proof.
  intros Hn. unfold undef_rx_match, undef_line.
  rewrite after_prefix_app.
  change (" */" +:+ String newline rest)
    with (String " " ("*/" +:+ String newline rest)).
  rewrite macro_name_at_app by done.
  change (String " " ("*/" +:+ String newline rest))
    with ((" */" +:+ String newline "") +:+ rest).
  by rewrite after_prefix_app.
Qed.

Lemma undef_rx_match_Some line n :
  undef_rx_match line = Some n ->
  exists rest, line = undef_line n rest /\ is_macro_name n = true.
Proof.
  unfold undef_rx_match.
  destruct (after_prefix "/* #undef " line) as [r|] eqn:H0; [| done].
  destruct (macro_name_at r) as [[n' r1]|] eqn:H1; [| done].
  destruct (after_prefix (" */" +:+ String newline "") r1) as [rest|] eqn:H2;
    [| done].
  intros [= <-]. exists rest.
  apply after_prefix_Some in H0, H2.
  apply macro_name_at_Some in H1 as [H1 Hn].
  split; [| done]. unfold undef_line. by rewrite H0, H1, H2.
Qed.

Lemma define_rx_match_undef_line n rest :
  define_rx_match (undef_line n rest) = None.
Proof. done. Qed.

Lemma parse_config_h_line_effect (g : gmap string value) (line : string)
    (f : line_form) :
  has_form line f -> parse_config_h_line g line = effect f g.
Proof.
  intros Hf. unfold parse_config_h_line.
  destruct Hf as [n v rest Hn Hv | n rest Hn | line Hdef Hundef].
  - by rewrite define_rx_match_line.
  - by rewrite define_rx_match_undef_line, undef_rx_match_line.
  - destruct (define_rx_match line) as [[n v]|] eqn:Hd.
    + apply define_rx_match_Some in Hd as (rest & -> & Hn & Hv).
      by destruct (Hdef n v rest).
    + destruct (undef_rx_match line) as [n|] eqn:Hu; [| done].
      apply undef_rx_match_Some in Hu as (rest & -> & Hn).
      by destruct (Hundef n rest).
Qed.

(** C8.  [parse_config_h] maps each line by its shape: [#define NAME VALUE]
    stores VALUE under NAME, as an [int] when [int(VALUE)] succeeds and as
    the string otherwise; the commented-out [#undef NAME] stores 0 under
    NAME; any other line leaves the mapping as it is.  The mapping returned
    is what these effects, line after line, make of the one passed in. *)
Theorem parse_config_h_line_forms (fp : list string) (forms : list line_form)
    (g : option (gmap string value)) :
  Forall2 has_form fp forms ->
  Forall (fun line => line <> "") fp ->
  parse_config_h fp g = foldl (fun g f => effect f g) (default ∅ g) forms.
Proof.
  unfold parse_config_h. generalize (default ∅ g). clear g.
  intros g Hforms. revert g.
  induction Hforms as [|line f fp forms Hf _ IH]; intros g Hne; [done |].
  apply Forall_cons in Hne as [Hline Hne]. simpl.
  destruct (String.eqb_spec line "") as [-> |]; [done |].
  rewrite (parse_config_h_line_effect g line f Hf). by apply IH.
Qed.

Lemma parse_config_h_line_forms_witness :
  parse_config_h
    [define_line "HAVE_FORK" "1" ""; "#include <x.h>";
     undef_line "HAVE_GETC" ""; define_line "VERSION" "3.2 final" ""] None
  = {[ "HAVE_FORK" := VInt 1; "HAVE_GETC" := VInt 0;
       "VERSION" := VStr "3.2 final" ]}.
Proof.
  rewrite (parse_config_h_line_forms _
             [Define "HAVE_FORK" "1"; Other; Undef "HAVE_GETC";
              Define "VERSION" "3.2 final"]).
  - reflexivity.
  - repeat constructor.
    + intros n v rest _ _. discriminate.
    + intros n rest _. discriminate.
  - repeat constructor; discriminate.
Defined.

(** ** One round of the interpolation loop *)

Lemma state_eta (st : state) : State (done st) (notdone st) = st.
Proof. by destruct st. Qed.

Lemma is_prefixed_renamed_PY (suffix : string) :
  is_prefixed_renamed ("PY_" +:+ suffix) = bool_decide (suffix ∈ renamed_variables).
Proof. unfold is_prefixed_renamed, startswith. simpl. by destruct suffix. Qed.

Lemma slice_from_length n s : String.length (slice_from n s) = String.length s - n.
Proof.
  revert s. induction n as [|n IH]; intros [|a s]; simpl; done.
Qed.

Lemma prefix_length p s : String.prefix p s = true -> String.length p <= String.length s.
Proof.
  revert s. induction p as [|a p IH]; intros [|b s]; simpl; try done; try lia.
  destruct (ascii_dec a b); [| done]. intros H. apply IH in H. lia.
Qed.

(** The unprefixed name differs from the prefixed one. *)
Lemma is_prefixed_renamed_ne name :
  is_prefixed_renamed name = true -> slice_from 3 name <> name.
Proof.
  unfold is_prefixed_renamed, startswith. intros H.
  apply andb_prop in H as [H _]. apply prefix_length in H. simpl in H.
  intros E. apply (f_equal String.length) in E.
  rewrite slice_from_length in E. lia.
Qed.

(** A name of [renamed_variables] is never defaulted to the empty string:
    the look-up leaves its entry of [done] alone. *)
Lemma lookup_reference_done env name n st r k :
  lookup_reference env name n st = Returns r ->
  k ∈ renamed_variables -> r.2 !! k = done st !! k.
Proof.
  unfold lookup_reference. intros H Hk.
  destruct (done st !! n); [by injection H as <- |].
  destruct (notdone st !! n); [by injection H as <- |].
  destruct (env !! n); [by injection H as <- |].
  case_bool_decide as Hn.
  - destruct (is_prefixed_renamed name); [by injection H as <- |].
    destruct (notdone st !! ("PY_" +:+ n)); [by injection H as <- |].
    destruct (done st !! ("PY_" +:+ n)); [by injection H as <- | done].
  - injection H as <-. simpl. apply lookup_insert_ne. by intros ->.
Qed.

Lemma interpolate_name_found env name value m item d st :
  notdone st !! name = Some value -> find_reference value = Some m ->
  lookup_reference env name (m_group1 m) st = Returns (Some item, d) ->
  interpolate_name env name st
  = Returns (substitute name m item (State d (notdone st))).
Proof.
  intros Hname Hm Hl. unfold interpolate_name. by rewrite Hname, Hm, Hl.
Qed.

Lemma interpolate_name_deferred env name value m d st :
  notdone st !! name = Some value -> find_reference value = Some m ->
  lookup_reference env name (m_group1 m) st = Returns (None, d) ->
  interpolate_name env name st = Returns (State d (notdone st)).
Proof.
  intros Hname Hm Hl. unfold interpolate_name. by rewrite Hname, Hm, Hl.
Qed.

(** C2.  The first reference found in the value of a pending variable is
    looked up (a) in [done]; (b) else, if its name is pending, the
    variable is left for a later sweep; (c) else in the environment;
    (d) else, for one of CFLAGS, LDFLAGS and CPPFLAGS, by the rule of the
    [PY_] prefix, which takes the value that [done] holds under the
    prefixed name; (e) else it is the empty string, which is stored in
    [done] under the name. *)
Theorem first_reference_priority (environ : gmap string string)
    (name value : string) (m : match_object) (st : state) :
  notdone st !! name = Some value ->
  find_reference value = Some m ->
  let n := m_group1 m in
  let result := interpolate_name environ name st in
  (forall v, done st !! n = Some v ->
     result = Returns (substitute name m (str v) st)) /\
  (done st !! n = None -> is_Some (notdone st !! n) ->
     result = Returns st) /\
  (forall item, done st !! n = None -> notdone st !! n = None ->
     environ !! n = Some item ->
     result = Returns (substitute name m item st)) /\
  (done st !! n = None -> notdone st !! n = None -> environ !! n = None ->
   n ∈ renamed_variables ->
     (is_prefixed_renamed name = true ->
        result = Returns (substitute name m "" st)) /\
     (is_prefixed_renamed name = false -> is_Some (notdone st !! ("PY_" +:+ n)) ->
        result = Returns st) /\
     (forall v, is_prefixed_renamed name = false ->
        notdone st !! ("PY_" +:+ n) = None -> done st !! ("PY_" +:+ n) = Some v ->
        result = Returns (substitute name m (str v) st))) /\
  (done st !! n = None -> notdone st !! n = None -> environ !! n = None ->
   n ∉ renamed_variables ->
     result = Returns (substitute name m ""
                         (State (<[n := VStr ""]> (done st)) (notdone st)))).
Proof.
  intros Hname Hm n result. subst result.
  assert (Hfound : forall item d,
    lookup_reference environ name n st = Returns (Some item, d) ->
    interpolate_name environ name st
    = Returns (substitute name m item (State d (notdone st))))
    by (intros; by eapply interpolate_name_found).
  assert (Hskip :
    lookup_reference environ name n st = Returns (None, done st) ->
    interpolate_name environ name st = Returns st).
  { intros Hl. rewrite <- (state_eta st) at 2.
    by eapply interpolate_name_deferred. }
  split; [| split; [| split; [| split]]].
  - intros v Hd. rewrite (Hfound (str v) (done st)), ?state_eta; [done |].
    unfold lookup_reference. by rewrite Hd.
  - intros Hd [w Hn]. apply Hskip.
    unfold lookup_reference. by rewrite Hd, Hn.
  - intros item Hd Hn He. rewrite (Hfound item (done st)), ?state_eta; [done |].
    unfold lookup_reference. by rewrite Hd, Hn, He.
  - intros Hd Hn He Hr.
    assert (Hl : lookup_reference environ name n st
                 = if is_prefixed_renamed name then Returns (Some "", done st)
                   else match notdone st !! ("PY_" +:+ n) with
                        | Some _ => Returns (None, done st)
                        | None =>
                            match done st !! ("PY_" +:+ n) with
                            | Some v => Returns (Some (str v), done st)
                            | None => Raises (KeyError ("PY_" +:+ n))
                            end
                        end).
    { unfold lookup_reference. rewrite Hd, Hn, He.
      by rewrite bool_decide_eq_true_2. }
    split; [| split].
    + intros Hp. rewrite Hp in Hl.
      by rewrite (Hfound "" (done st)), ?state_eta.
    + intros Hp [w Hw]. rewrite Hp, Hw in Hl. by apply Hskip.
    + intros v Hp Hw Hv. rewrite Hp, Hw, Hv in Hl.
      by rewrite (Hfound (str v) (done st)), ?state_eta.
  - intros Hd Hn He Hr.
    rewrite (Hfound "" (<[n := VStr ""]> (done st))); [done |].
    unfold lookup_reference. rewrite Hd, Hn, He.
    by rewrite bool_decide_eq_false_2.
Qed.

Lemma first_reference_priority_witness :
  let st := read_lines ["PY_CFLAGS = -O2"; "XX = $(CFLAGS)"] in
  let m := MatchObject "" "CFLAGS" "" in
  interpolate_name ∅ "XX" st = Returns (substitute "XX" m "-O2" st).
Proof.
  intros st m.
  destruct (first_reference_priority ∅ "XX" "$(CFLAGS)" m st)
    as (_ & _ & _ & Hrenamed & _); [reflexivity | reflexivity |].
  destruct Hrenamed as (_ & _ & Hprefixed);
    [reflexivity | reflexivity | reflexivity | compute_done |].
  apply (Hprefixed (VStr "-O2")); reflexivity.
Defined.

(** The scenario of C2, run as a whole: [PY_CFLAGS] is final, [CFLAGS] is
    neither assigned nor in the environment, and [$(CFLAGS)] is replaced by
    the value of [PY_CFLAGS]. *)
Example reference_to_CFLAGS_takes_PY_CFLAGS :
  exists r, parse_makefile dict_keys ∅ 1 ["PY_CFLAGS = -O2"; "XX = $(CFLAGS)"] None
            = Returns r /\
            r !! "PY_CFLAGS" = Some (VStr "-O2") /\
            r !! "XX" = Some (VStr "-O2") /\ r !! "CFLAGS" = None.
Proof. eexists. split; [reflexivity |]. vm_compute. done. Qed.

(** C10.  When a pending variable whose name does not start with [PY_]
    refers to one of CFLAGS, LDFLAGS and CPPFLAGS, and that name is neither
    in [done], nor pending, nor in the environment, and the name with the
    prefix [PY_] is not pending either, the value is read from [done] under
    the prefixed name without a test: if it is not there, the round raises
    [KeyError] instead of taking the empty string, and so do the sweep and
    the loop that run it. *)
Theorem renamed_fallback_KeyError (environ : gmap string string)
    (name value : string) (m : match_object) (st : state) :
  notdone st !! name = Some value ->
  find_reference value = Some m ->
  let n := m_group1 m in
  n ∈ renamed_variables ->
  startswith "PY_" name = false ->
  done st !! n = None -> notdone st !! n = None -> environ !! n = None ->
  notdone st !! ("PY_" +:+ n) = None ->
  done st !! ("PY_" +:+ n) = None ->
  interpolate_name environ name st = Raises (KeyError ("PY_" +:+ n)) /\
  (forall names, sweep environ (name :: names) st = Raises (KeyError ("PY_" +:+ n))) /\
  (forall keys names fuel, keys (notdone st) = name :: names ->
     interpolate keys environ (S fuel) st = Raises (KeyError ("PY_" +:+ n))).
Proof.
  intros Hname Hm n Hr Hp Hd Hn He Hpn Hpd.
  assert (Hraise : interpolate_name environ name st = Raises (KeyError ("PY_" +:+ n))).
  { unfold interpolate_name. rewrite Hname, Hm.
    unfold lookup_reference. fold n. rewrite Hd, Hn, He.
    rewrite bool_decide_eq_true_2 by done.
    unfold is_prefixed_renamed. rewrite Hp. cbn [andb]. by rewrite Hpn, Hpd. }
  split; [done |]. split.
  - intros names. simpl. by rewrite Hraise.
  - intros keys names fuel Hkeys. simpl.
    rewrite bool_decide_eq_false_2.
    + rewrite Hkeys. simpl. by rewrite Hraise.
    + intros Hempty. rewrite Hempty in Hname. by rewrite lookup_empty in Hname.
Qed.

Lemma renamed_fallback_KeyError_witness :
  parse_makefile dict_keys ∅ 1 ["XX = $(CFLAGS)"] None
  = Raises (KeyError "PY_CFLAGS").
Proof.
  unfold parse_makefile.
  destruct (renamed_fallback_KeyError ∅ "XX" "$(CFLAGS)"
              (MatchObject "" "CFLAGS" "") (read_lines ["XX = $(CFLAGS)"]))
    as (_ & _ & Hloop);
    [reflexivity | reflexivity | compute_done | reflexivity | reflexivity
    | reflexivity | reflexivity | reflexivity | reflexivity |].
  by rewrite (Hloop dict_keys [] 0).
Defined.

(** C3, as the code has it.  A value put together by a substitution is
    parsed again: when no dollar follows the reference and [int()] accepts
    the new text, the variable is stored in [done] as that [int]. *)
Theorem substituted_value_is_parsed_again (environ : gmap string string)
    (d : gmap string value) (name value item : string) (m : match_object)
    (z : Z) (st : state) :
  notdone st !! name = Some value ->
  find_reference value = Some m ->
  lookup_reference environ name (m_group1 m) st = Returns (Some item, d) ->
  contains_dollar (m_post m) = false ->
  int_of_str (m_pre m +:+ item +:+ m_post m) = Some z ->
  exists st', interpolate_name environ name st = Returns st' /\
              done st' !! name = Some (VInt z) /\
              notdone st' !! name = None.
Proof.
  intros Hname Hm Hl Hpost Hint. eexists. split.
  - by eapply interpolate_name_found.
  - unfold substitute. rewrite Hpost. unfold int_or. rewrite Hint.
    cbv zeta. cbn [done notdone].
    destruct (is_prefixed_renamed name) eqn:Hp.
    + apply is_prefixed_renamed_ne in Hp.
      destruct (<[name := VInt z]> d !! slice_from 3 name); cbn [done notdone].
      * by rewrite lookup_insert_eq, lookup_delete_eq.
      * by rewrite lookup_insert_ne, lookup_insert_eq, lookup_delete_eq.
    + cbn [done notdone]. by rewrite lookup_insert_eq, lookup_delete_eq.
Qed.

Lemma substituted_value_is_parsed_again_witness :
  exists st', interpolate_name ∅ "BB" (read_lines ["AA = 1"; "BB = $(AA)2"])
              = Returns st' /\
              done st' !! "BB" = Some (VInt 12) /\ notdone st' !! "BB" = None.
Proof.
  apply (substituted_value_is_parsed_again ∅
           (done (read_lines ["AA = 1"; "BB = $(AA)2"])) "BB" "$(AA)2" "1"
           (MatchObject "" "AA" "2"));
    reflexivity.
Defined.

(** C3 as stated fails.  The lines [A = 1] and [B = $(A)2] are no
    assignments for [_variable_rx], which wants two characters in a name,
    and the mapping is empty; with names that it accepts, the value of the
    second variable is the [int] 12 and not the string. *)
Lemma substituted_value_counterexample :
  parse_makefile dict_keys ∅ 1 ["A = 1"; "B = $(A)2"] None = Returns ∅ /\
  exists r, parse_makefile dict_keys ∅ 1 ["AA = 1"; "BB = $(AA)2"] None = Returns r /\
            r !! "BB" = Some (VInt 12) /\ r !! "BB" <> Some (VStr "12").
Proof.
  split; [reflexivity |]. eexists. split; [reflexivity |]. by vm_compute.
Qed.

(** C6.  When a pending variable named [PY_] and one of CFLAGS, LDFLAGS,
    CPPFLAGS becomes final in a round, the value [v] it ends with is stored
    under its own name (stripped, if it is a string) and also under the
    name without the prefix, unless [done] already has that name, whose
    entry is then left as it was. *)
Theorem prefixed_variable_published (environ : gmap string string)
    (name suffix text : string) (st st' : state) :
  name = "PY_" +:+ suffix ->
  suffix ∈ renamed_variables ->
  notdone st !! name = Some text ->
  is_Some (find_reference text) ->
  interpolate_name environ name st = Returns st' ->
  notdone st' !! name = None ->
  exists v, done st' !! name = Some (strip_value v) /\
            (done st !! suffix = None -> done st' !! suffix = Some v) /\
            (forall old, done st !! suffix = Some old ->
                         done st' !! suffix = Some old).
Proof.
  intros E Hsuffix Hname [m Hm] Hround Hgone.
  assert (Hne : suffix <> name).
  { intros E'. rewrite E in E'. apply (f_equal String.length) in E'.
    simpl in E'. lia. }
  assert (Hp : is_prefixed_renamed name = true)
    by (by rewrite E, is_prefixed_renamed_PY, bool_decide_eq_true_2).
  assert (Hslice : slice_from 3 name = suffix) by (by rewrite E).
  clear E. unfold interpolate_name in Hround. rewrite Hname, Hm in Hround.
  destruct (lookup_reference environ name (m_group1 m) st)
    as [[[item|] d]|e|] eqn:Hl; try done; simpl in Hround;
    injection Hround as <-.
  2: { simpl in Hgone. by rewrite Hname in Hgone. }
  pose proof (lookup_reference_done _ _ _ _ _ suffix Hl Hsuffix) as Hd.
  simpl in Hd. revert Hgone. unfold substitute.
  destruct (contains_dollar (m_post m)); cbn [done notdone].
  { by rewrite lookup_insert_eq. }
  intros _. rewrite Hp, Hslice.
  set (new := m_pre m +:+ item +:+ m_post m).
  exists (int_or new (VStr new)).
  assert (Hown : int_or new (VStr (strip new)) = strip_value (int_or new (VStr new)))
    by (unfold int_or; by destruct (int_of_str new)).
  rewrite lookup_insert_ne, Hd by done.
  destruct (done st !! suffix) as [old|] eqn:Hold; cbn [done notdone].
  - rewrite lookup_insert_eq, lookup_insert_ne, Hd by done.
    split; [by rewrite Hown |]. split; [done |]. by intros ? [= <-].
  - rewrite lookup_insert_ne, !lookup_insert_eq by done.
    split; [by rewrite Hown |]. split; [done |]. done.
Qed.

Lemma prefixed_variable_published_witness :
  let st := read_lines ["PY_CFLAGS = $(OPT) -O2"] in
  let st' := State {[ "OPT" := VStr ""; "PY_CFLAGS" := VStr "-O2";
                      "CFLAGS" := VStr " -O2" ]} ∅ in
  interpolate_name ∅ "PY_CFLAGS" st = Returns st' /\
  exists v, done st' !! "PY_CFLAGS" = Some (strip_value v) /\
            (done st !! "CFLAGS" = None -> done st' !! "CFLAGS" = Some v) /\
            (forall old, done st !! "CFLAGS" = Some old ->
                         done st' !! "CFLAGS" = Some old).
Proof.
  intros st st'. split; [reflexivity |].
  apply (prefixed_variable_published ∅ "PY_CFLAGS" "CFLAGS" "$(OPT) -O2" st st');
    [reflexivity | compute_done | reflexivity | by eexists | reflexivity
    | reflexivity].
Defined.

(** C7, as the code has it.  A pending variable whose value holds no
    reference of either form is taken out of the pending set: the round
    raises nothing, stores nothing and leaves the other variables alone. *)
Theorem bogus_reference_dropped (environ : gmap string string)
    (name text : string) (st : state) :
  notdone st !! name = Some text ->
  find_reference text = None ->
  interpolate_name environ name st
  = Returns (State (done st) (delete name (notdone st))).
Proof.
  intros Hname Hnone. unfold interpolate_name. by rewrite Hname, Hnone.
Qed.

Lemma bogus_reference_dropped_witness :
  let st := read_lines ["XX = a$b"; "YY = $(ZZ)"] in
  interpolate_name ∅ "XX" st = Returns (State (done st) (delete "XX" (notdone st))).
Proof.
  intros st. apply (bogus_reference_dropped ∅ "XX" "a$b"); reflexivity.
Defined.

(** C7 as stated fails: the name of a dropped variable is in the result
    when another variable refers to it, since the reference is then
    resolved to the empty string, which is stored under the name.  This
    holds in whichever order the pending variables are taken. *)
Lemma dropped_variable_counterexample :
  let fp := ["XX = $"; "YY = $(XX)"] in
  notdone (read_lines fp) !! "XX" = Some "$" /\
  find_reference "$" = None /\
  (exists r, parse_makefile dict_keys ∅ 2 fp None = Returns r /\
             r !! "XX" = Some (VStr "")) /\
  (exists r, parse_makefile (fun d => reverse (dict_keys d)) ∅ 2 fp None = Returns r /\
             r !! "XX" = Some (VStr "")).
Proof.
  repeat split; try reflexivity; eexists; (split; [reflexivity |]); by vm_compute.
Qed.

(** ** The first loop and the last pass of [parse_makefile] *)

Lemma lstrip_starts s : head_in is_space (lstrip s) = false.
Proof.
  unfold lstrip. destruct (drop_while is_space s) as [|c r] eqn:E; [done |].
  simpl. by eapply drop_while_head.
Qed.

Lemma rstrip_starts s :
  head_in is_space s = false -> head_in is_space (rstrip s) = false.
Proof.
  destruct s as [|c r]; [done |]. simpl. intros Hc.
  destruct (rstrip r); [by rewrite Hc | done].
Qed.

Lemma rstrip_ends s : ends_with_space (rstrip s) = false.
Proof.
  induction s as [|c r IH]; [done |]. simpl.
  destruct (rstrip r) as [|c' r'] eqn:E.
  - destruct (is_space c) eqn:Hc; [done | by simpl].
  - done.
Qed.

Lemma strip_trimmed s : trimmed (strip s).
Proof.
  split; [apply rstrip_starts, lstrip_starts | apply rstrip_ends].
Qed.

Lemma take_while_stop p run rest :
  all_chars p run = true -> head_in p rest = false ->
  take_while p (run +:+ rest) = run.
Proof.
  intros Hrun Hrest. induction run as [|a run IH]; simpl in *.
  - destruct rest as [|c rest]; [done |]. simpl in *. by rewrite Hrest.
  - apply andb_prop in Hrun as [Ha Hrun]. rewrite Ha. f_equal. by apply IH.
Qed.

Lemma drop_while_stop p run rest :
  all_chars p run = true -> head_in p rest = false ->
  drop_while p (run +:+ rest) = rest.
Proof.
  intros Hrun Hrest. induction run as [|a run IH]; simpl in *.
  - destruct rest as [|c rest]; [done |]. simpl in *. by rewrite Hrest.
  - apply andb_prop in Hrun as [Ha Hrun]. rewrite Ha. by apply IH.
Qed.

Lemma take_while_all p s : all_chars p s = true -> take_while p s = s.
Proof.
  intros H. rewrite <- (str_app_nil_r s) at 1. by apply take_while_stop.
Qed.

Lemma space_not_name_char c : is_space c = true -> is_name_char c = false.
Proof. by destruct c as [[] [] [] [] [] [] [] []]. Qed.

(** What [_variable_rx] makes of an assignment. *)
Lemma variable_rx_match_line n ws1 ws2 v :
  is_variable_name n = true ->
  all_chars is_space ws1 = true -> all_chars is_space ws2 = true ->
  all_chars is_dot v = true -> head_in is_space v = false ->
  _variable_rx_match (assignment_line n ws1 ws2 v) = Some (n, v).
Proof.
  intros Hn Hws1 Hws2 Hv Hhead. destruct n as [|a [|b r]]; try done.
  simpl in Hn. apply andb_prop in Hn as [Ha Hr].
  unfold assignment_line.
  change (String a (String b r) +:+ ws1 +:+ String "=" (ws2 +:+ v))
    with (String a (String b r +:+ ws1 +:+ String "=" (ws2 +:+ v))).
  unfold _variable_rx_match. rewrite Ha.
  assert (Hstop : head_in is_name_char (ws1 +:+ String "=" (ws2 +:+ v)) = false).
  { destruct ws1 as [|c ws1]; [done |]. simpl in *.
    apply andb_prop in Hws1 as [Hc _]. by apply space_not_name_char. }
  rewrite take_while_stop, drop_while_stop by done.
  rewrite drop_while_run by done. simpl.
  by rewrite drop_while_stop, take_while_all.
Qed.

(** C5.  A line that [_variable_rx] matches is classified at once: when
    its stripped right-hand side has no dollar left once every pair of
    dollars is removed, it goes to [done], as an [int] if [int()] accepts
    it and else as the string with each pair of dollars replaced by one;
    otherwise it goes to the pending set.  And every string of the mapping
    that [parse_makefile] returns is stripped of the blanks at both ends,
    but for the strings of a dictionary passed in that were not
    replaced: with no dictionary passed in, all are stripped. *)
Theorem matched_line_classified (keys : gmap string string -> list string)
    (environ : gmap string string) (fuel : nat) (fp : list string)
    (g : option (gmap string value)) (r : gmap string value) (st : state)
    (line n v : string) :
  _variable_rx_match line = Some (n, v) ->
  parse_makefile keys environ fuel fp g = Returns r ->
  let text := strip v in
  read_line st line
  = (if contains_dollar (replace_dollar_dollar "" text)
     then State (done st) (<[n := text]> (notdone st))
     else State (<[n := match int_of_str text with
                        | Some z => VInt z
                        | None => VStr (replace_dollar_dollar "$" text)
                        end]> (done st))
                (notdone st)) /\
  (forall k s, r !! k = Some (VStr s) ->
               trimmed s \/ default ∅ g !! k = Some (VStr s)) /\
  (g = None -> forall k s, r !! k = Some (VStr s) -> trimmed s).
Proof.
  intros Hline Hparse text.
  assert (Hall : forall k s, r !! k = Some (VStr s) ->
                             trimmed s \/ default ∅ g !! k = Some (VStr s)).
  { intros k s Hk. unfold parse_makefile in Hparse.
    destruct (interpolate keys environ fuel (read_lines fp)) as [st'| |];
      try done.
    simpl in Hparse. injection Hparse as <-.
    apply lookup_union_Some_raw in Hk as [Hk | [_ Hk]]; [left | by right].
    rewrite lookup_fmap in Hk.
    destruct (done st' !! k) as [[z|s']|]; try done.
    injection Hk as <-. apply strip_trimmed. }
  split; [| split; [done |]].
  - unfold read_line. by rewrite Hline.
  - intros -> k s Hk. destruct (Hall k s Hk) as [? | Hg]; [done |].
    simpl in Hg. by rewrite lookup_empty in Hg.
Qed.

Lemma matched_line_classified_witness :
  let fp := ["CC =  gcc $$HOME  "; "SIZEOF_INT = 4"; "LD = $(CC) -shared "] in
  let r : gmap string value :=
    {[ "CC" := VStr "gcc $HOME"; "SIZEOF_INT" := VInt 4;
       "LD" := VStr "gcc $HOME -shared" ]} in
  parse_makefile dict_keys ∅ 1 fp None = Returns r /\
  read_line (State ∅ ∅) "CC =  gcc $$HOME  "
  = State {[ "CC" := VStr "gcc $HOME" ]} ∅ /\
  (forall k s, r !! k = Some (VStr s) -> trimmed s).
Proof.
  intros fp r.
  assert (Hr : parse_makefile dict_keys ∅ 1 fp None = Returns r) by reflexivity.
  split; [exact Hr |].
  destruct (matched_line_classified dict_keys ∅ 1 fp None r (State ∅ ∅)
              "CC =  gcc $$HOME  " "CC" "gcc $$HOME  ")
    as (Hline & _ & Htrim);
    [by apply (variable_rx_match_line "CC" " " "  " "gcc $$HOME  ")
    | exact Hr |].
  split; [by rewrite Hline | by apply Htrim].
Defined.


(** ** [get_config_vars] *)

Section Memoisation.

Variable p : platform.

Lemma get_config_vars_set (s : module_state) (address : positive) :
  _config_vars s = Some address ->
  get_config_vars p [] s = (Returns (TheDict address), s).
Proof. intros H. unfold get_config_vars. rewrite H. simpl. by rewrite H. Qed.

Lemma initialise_runs (s : module_state) :
  init_runs (initialise p s).2 = S (init_runs s).
Proof.
  unfold initialise.
  by destruct (default (Returns ∅) (init_os p (init_runs s))).
Qed.

Lemma get_config_vars_returned (s s' : module_state) (address : positive) :
  get_config_vars p [] s = (Returns (TheDict address), s') ->
  _config_vars s' = Some address /\ init_runs s' <= S (init_runs s).
Proof.
  unfold get_config_vars.
  destruct (_config_vars s) as [a|] eqn:Ha; simpl.
  - rewrite Ha. intros [= <- <-]. split; [done | lia].
  - pose proof (initialise_runs s) as Hruns.
    destruct (initialise p s) as [[[]| |] s1]; simpl in *; try done.
    destruct (_config_vars s1) as [a|] eqn:Ha1; [| done].
    intros [= <- <-]. split; [done | lia].
Qed.

(** C9.  Once a call of [get_config_vars()] has returned the dictionary,
    every later call returns the same object and changes nothing: neither
    the global, nor what the dictionary holds, nor the number of times the
    initialisation was entered, which the first call raised by one at
    most. *)
Theorem get_config_vars_memoised (s0 s1 : module_state) (address : positive) :
  get_config_vars p [] s0 = (Returns (TheDict address), s1) ->
  init_runs s1 <= S (init_runs s0) /\
  forall n, after_calls p n s1 = s1 /\
            get_config_vars p [] (after_calls p n s1)
            = (Returns (TheDict address), s1).
Proof.
  intros Hfirst.
  apply get_config_vars_returned in Hfirst as [Hset Hruns].
  split; [done |].
  pose proof (get_config_vars_set s1 address Hset) as Hagain.
  assert (Hsame : forall n, after_calls p n s1 = s1).
  { induction n as [|n IH]; [done |]. simpl. by rewrite Hagain. }
  intros n. by rewrite Hsame.
Qed.

End Memoisation.

Lemma get_config_vars_memoised_witness :
  let p := Platform "/usr" "/usr"
             (fun k => Some (Returns {[ "CC" := VStr (str_of_int (Z.of_nat k)) ]}))
             (fun _ g => (g, None)) in
  let s0 := ModuleState None ∅ 0 in
  let s1 := (get_config_vars p [] s0).2 in
  heap s1 !! 1%positive
  = Some {[ "CC" := VStr "0"; "prefix" := VStr "/usr"; "exec_prefix" := VStr "/usr" ]} /\
  init_runs s1 = 1 /\
  get_config_vars p [] (after_calls p 3 s1) = (Returns (TheDict 1%positive), s1).
Proof.
  intros p s0 s1.
  destruct (get_config_vars_memoised p s0 s1 1%positive) as [_ Hlater];
    [reflexivity |].
  split; [reflexivity |]. split; [reflexivity |]. apply Hlater.
Defined.

(** ** The reference patterns *)

Lemma count_dollar_app s t : count_dollar (s +:+ t) = count_dollar s + count_dollar t.
Proof. induction s as [|a s IH]; simpl; [done | rewrite IH; lia]. Qed.

Lemma contains_dollar_count s : contains_dollar s = false <-> count_dollar s = 0.
Proof.
  induction s as [|a s IH]; simpl; [done |].
  destruct (Ascii.eqb a "$"); simpl; [split; [done | lia] | done].
Qed.

Lemma name_char_not_dollar c : is_name_char c = true -> Ascii.eqb c "$" = false.
Proof. destruct (Ascii.eqb_spec c "$") as [-> |]; [by vm_compute | done]. Qed.

Lemma count_dollar_run s : all_chars is_name_char s = true -> count_dollar s = 0.
Proof.
  induction s as [|a s IH]; simpl; [done |].
  intros H. apply andb_prop in H as [Ha Hs].
  by rewrite (name_char_not_dollar a Ha), IH.
Qed.

Lemma bracket_pair_cases o c :
  is_bracket_pair o c = true ->
  (o = "(" /\ c = ")")%char \/ (o = "{" /\ c = "}")%char.
Proof.
  unfold is_bracket_pair. intros H. apply orb_prop in H as [H | H];
    apply andb_prop in H as [Ho Hc];
    apply Ascii.eqb_eq in Ho, Hc; auto.
Qed.

Lemma reference_name_run n :
  is_reference_name n = true -> all_chars is_name_char n = true.
Proof.
  destruct n as [|a r]; [done |]. simpl. intros H.
  apply andb_prop in H as [Ha Hr]. rewrite Hr.
  unfold is_name_char. by rewrite Ha.
Qed.

Lemma reference_body_no_dollar o c n :
  is_bracket_pair o c = true -> is_reference_name n = true ->
  count_dollar (reference_body o c n) = 0.
Proof.
  intros Hb Hn. unfold reference_body. simpl.
  rewrite count_dollar_app, (count_dollar_run n (reference_name_run n Hn)).
  by destruct (bracket_pair_cases o c Hb) as [[-> ->] | [-> ->]].
Qed.

Lemma reference_app o c n post :
  reference o c n +:+ post = String "$" (String o (n +:+ String c post)).
Proof. unfold reference. simpl. by rewrite str_app_assoc. Qed.

Lemma reference_at_reference o c n post :
  is_bracket_pair o c = true -> is_reference_name n = true ->
  reference_at o c (reference o c n +:+ post) = Some (n, post).
Proof.
  intros Hb Hn. rewrite reference_app.
  assert (Hc : is_name_char c = false)
    by (by destruct (bracket_pair_cases o c Hb) as [[-> ->] | [-> ->]]).
  destruct n as [|a r]; [done |]. simpl in Hn.
  apply andb_prop in Hn as [Ha Hr].
  change (String a r +:+ String c post) with (String a (r +:+ String c post)).
  unfold reference_at.
  rewrite !Ascii.eqb_refl, Ha, drop_while_run, take_while_run by done.
  simpl. by rewrite Ascii.eqb_refl.
Qed.

Lemma reference_at_Some o c s n post :
  reference_at o c s = Some (n, post) ->
  s = reference o c n +:+ post /\ is_reference_name n = true.
Proof.
  unfold reference_at.
  destruct s as [|d [|o' [|a r]]]; try done.
  destruct (Ascii.eqb_spec d "$") as [-> |]; [| done].
  destruct (Ascii.eqb_spec o' o) as [-> |]; [| done].
  destruct (is_alpha a) eqn:Ha; [| done]. simpl.
  destruct (drop_while is_name_char r) as [|c' post'] eqn:Hdrop; [done |].
  destruct (Ascii.eqb_spec c' c) as [-> |]; [| done].
  intros [= <- <-]. split.
  - rewrite str_app_assoc. simpl. do 3 f_equal.
    rewrite <- Hdrop. by rewrite take_drop_while.
  - simpl. by rewrite Ha, all_chars_take_while.
Qed.


Lemma search_Some o c s m :
  search o c s = Some m ->
  s = m_pre m +:+ reference o c (m_group1 m) +:+ m_post m /\
  is_reference_name (m_group1 m) = true.
Proof.
  revert m. induction s as [|a s IH]; intros m.
  - by unfold search, reference_at.
  - unfold search; fold search.
    destruct (reference_at o c (String a s)) as [[n post]|] eqn:Hat.
    + intros [= <-]. by apply reference_at_Some in Hat.
    + destruct (search o c s) as [m'|]; [| done].
      intros [= <-]. destruct (IH m' eq_refl) as [Hs Hn].
      split; [| done]. cbn [m_pre m_group1 m_post]. by rewrite Hs at 1.
Qed.




Lemma reference_app_body o c n post :
  reference o c n +:+ post = String "$" (reference_body o c n +:+ post).
Proof. done. Qed.


Lemma count_dollar_reference o c n post :
  is_bracket_pair o c = true -> is_reference_name n = true ->
  count_dollar (reference o c n +:+ post) = S (count_dollar post).
Proof.
  intros Hb Hn. rewrite reference_app_body.
  change (count_dollar (String "$" (reference_body o c n +:+ post)))
    with (S (count_dollar (reference_body o c n +:+ post))).
  by rewrite count_dollar_app, reference_body_no_dollar.
Qed.



Lemma values_without_dollar_lookup vars k t :
  values_without_dollar vars = true -> vars !! k = Some (VStr t) ->
  count_dollar t = 0.
Proof.
  unfold values_without_dollar. rewrite forallb_forall. intros Hall Hk.
  apply elem_of_map_to_list, list_elem_of_In, Hall in Hk. simpl in Hk.
  apply contains_dollar_count. by destruct (contains_dollar t).
Qed.


(** * Further properties of [parse_makefile] *)

Lemma substitute_notdone_other name m item st k :
  k <> name -> notdone (substitute name m item st) !! k = notdone st !! k.
Proof.
  intros Hne. unfold substitute.
  destruct (contains_dollar (m_post m)); cbv zeta; cbn [notdone].
  - by rewrite lookup_insert_ne.
  - destruct (is_prefixed_renamed name);
      [destruct (_ !! slice_from 3 name) |]; cbn [notdone];
      by rewrite lookup_delete_ne.
Qed.

(** A round changes the pending set at its own variable only. *)
Lemma interpolate_name_notdone_other env name st st' k :
  interpolate_name env name st = Returns st' ->
  k <> name -> notdone st' !! k = notdone st !! k.
Proof.
  unfold interpolate_name. intros Hround Hne.
  destruct (notdone st !! name) as [text|]; [| done].
  destruct (find_reference text) as [m|].
  - destruct (lookup_reference env name (m_group1 m) st)
      as [[[item|] d]|e|]; try done; simpl in Hround; injection Hround as <-.
    + by rewrite substitute_notdone_other.
    + done.
  - injection Hround as <-. cbn [notdone]. by rewrite lookup_delete_ne.
Qed.

(** The look-up adds the name it defaults, and nothing else, to [done]. *)
Lemma lookup_reference_keeps env name n st x d k v :
  lookup_reference env name n st = Returns (x, d) ->
  done st !! k = Some v -> d !! k = Some v.
Proof.
  unfold lookup_reference. intros H Hk.
  destruct (done st !! n) eqn:Hn; [by injection H as _ <- |].
  destruct (notdone st !! n); [by injection H as _ <- |].
  destruct (env !! n); [by injection H as _ <- |].
  case_bool_decide.
  - destruct (is_prefixed_renamed name); [by injection H as _ <- |].
    destruct (notdone st !! ("PY_" +:+ n)); [by injection H as _ <- |].
    destruct (done st !! ("PY_" +:+ n)); [by injection H as _ <- | done].
  - injection H as _ <-. rewrite lookup_insert_ne; [done |].
    intros ->. by rewrite Hn in Hk.
Qed.

Lemma substitute_done_keeps name m item st k v :
  done st !! k = Some v -> k <> name ->
  done (substitute name m item st) !! k = Some v.
Proof.
  intros Hk Hne. unfold substitute.
  destruct (contains_dollar (m_post m)); cbv zeta; cbn [done]; [done |].
  set (done1 := <[name := _]> (done st)).
  assert (H1 : done1 !! k = Some v) by (unfold done1; by rewrite lookup_insert_ne).
  destruct (is_prefixed_renamed name); [| done].
  destruct (done1 !! slice_from 3 name) eqn:Hs; cbn [done]; [done |].
  rewrite lookup_insert_ne; [done |]. intros E. by rewrite E, H1 in Hs.
Qed.

(** A round leaves alone what [done] holds for a variable that is not
    pending. *)
Lemma interpolate_name_stable env name st st' k v :
  interpolate_name env name st = Returns st' ->
  done st !! k = Some v -> notdone st !! k = None ->
  done st' !! k = Some v /\ notdone st' !! k = None.
Proof.
  intros Hround Hk Hnot.
  assert (Hne : k <> name).
  { intros ->. unfold interpolate_name in Hround. by rewrite Hnot in Hround. }
  split; [| by rewrite (interpolate_name_notdone_other _ _ _ _ _ Hround Hne)].
  unfold interpolate_name in Hround.
  destruct (notdone st !! name) as [text|]; [| done].
  destruct (find_reference text) as [m|]; [| by injection Hround as <-].
  destruct (lookup_reference env name (m_group1 m) st)
    as [[[item|] d]|e|] eqn:Hl; try done; simpl in Hround;
    injection Hround as <-;
    pose proof (lookup_reference_keeps _ _ _ _ _ _ _ _ Hl Hk) as Hd.
  - by apply substitute_done_keeps.
  - done.
Qed.

Lemma sweep_stable env names st st' k v :
  sweep env names st = Returns st' ->
  done st !! k = Some v -> notdone st !! k = None ->
  done st' !! k = Some v /\ notdone st' !! k = None.
Proof.
  revert st. induction names as [|name names IH]; intros st Hsweep Hk Hnot.
  - by injection Hsweep as <-.
  - simpl in Hsweep.
    destruct (interpolate_name env name st) as [st1| |] eqn:Hround; try done.
    destruct (interpolate_name_stable _ _ _ _ _ _ Hround Hk Hnot).
    by apply (IH st1).
Qed.

Lemma interpolate_stable keys env fuel st st' k v :
  interpolate keys env fuel st = Returns st' ->
  done st !! k = Some v -> notdone st !! k = None ->
  done st' !! k = Some v.
Proof.
  revert st. induction fuel as [|fuel IH]; intros st; simpl;
    case_bool_decide; try done; try by intros [= <-].
  destruct (sweep env (keys (notdone st)) st) as [st1| |] eqn:Hsweep; try done.
  simpl. intros Hloop Hk Hnot.
  destruct (sweep_stable _ _ _ _ _ _ Hsweep Hk Hnot). by apply (IH st1).
Qed.

(** X1.  A variable that the first loop stores in [done] and that no line
    makes pending is in the mapping returned with that value, stripped if
    it is a string: nothing that the interpolation does to the other
    variables changes it, in whichever order they are taken. *)
Theorem resolved_variable_stable (keys : gmap string string -> list string)
    (environ : gmap string string) (fuel : nat) (fp : list string)
    (g : option (gmap string value)) (r : gmap string value)
    (k : string) (v : value) :
  done (read_lines fp) !! k = Some v ->
  notdone (read_lines fp) !! k = None ->
  parse_makefile keys environ fuel fp g = Returns r ->
  r !! k = Some (strip_value v).
Proof.
  intros Hk Hnot. unfold parse_makefile.
  destruct (interpolate keys environ fuel (read_lines fp)) as [st'| |] eqn:Hloop;
    try done.
  simpl. intros [= <-].
  apply lookup_union_Some_l. rewrite lookup_fmap.
  by rewrite (interpolate_stable _ _ _ _ _ _ _ Hloop Hk Hnot).
Qed.

Lemma resolved_variable_stable_witness :
  let fp := ["CC = gcc "; "LD = $(CC) -shared $(XX)"; "CFLAGS = $(LD)"] in
  let r : gmap string value :=
    {[ "CC" := VStr "gcc"; "XX" := VStr ""; "LD" := VStr "gcc -shared";
       "CFLAGS" := VStr "gcc -shared" ]} in
  parse_makefile dict_keys ∅ 3 fp None = Returns r /\
  r !! "CC" = Some (VStr "gcc").
Proof.
  intros fp r.
  assert (Hr : parse_makefile dict_keys ∅ 3 fp None = Returns r) by reflexivity.
  split; [exact Hr |].
  apply (resolved_variable_stable dict_keys ∅ 3 fp None r "CC" (VStr "gcc"));
    [reflexivity | reflexivity | exact Hr].
Defined.

(** A round raises only where it reads [done] under a prefixed name. *)
Lemma interpolate_name_Raises env name st e :
  interpolate_name env name st = Raises e ->
  is_Some (notdone st !! name) ->
  exists n, n ∈ renamed_variables /\ e = KeyError ("PY_" +:+ n) /\ env !! n = None.
Proof.
  unfold interpolate_name. intros Hround [text Hname]. rewrite Hname in Hround.
  destruct (find_reference text) as [m|]; [| done].
  destruct (lookup_reference env name (m_group1 m) st) as [[[item|] d]|e'|] eqn:Hl;
    try done.
  simpl in Hround. injection Hround as <-. exists (m_group1 m).
  unfold lookup_reference in Hl.
  destruct (done st !! m_group1 m); [done |].
  destruct (notdone st !! m_group1 m); [done |].
  destruct (env !! m_group1 m); [done |].
  case_bool_decide; [| done].
  destruct (is_prefixed_renamed name); [done |].
  destruct (notdone st !! ("PY_" +:+ m_group1 m)); [done |].
  destruct (done st !! ("PY_" +:+ m_group1 m)); [done |].
  by injection Hl as <-.
Qed.

Lemma sweep_Raises env names st e :
  NoDup names ->
  (forall name, name ∈ names -> is_Some (notdone st !! name)) ->
  sweep env names st = Raises e ->
  exists n, n ∈ renamed_variables /\ e = KeyError ("PY_" +:+ n) /\ env !! n = None.
Proof.
  revert st. induction names as [|name names IH]; intros st Hnodup Hpending;
    [done |].
  apply NoDup_cons in Hnodup as [Hfresh Hnodup]. simpl.
  destruct (interpolate_name env name st) as [st1|e'|] eqn:Hround; simpl.
  - apply IH; [done |]. intros k Hk.
    rewrite (interpolate_name_notdone_other _ _ _ _ _ Hround).
    + apply Hpending. by right.
    + by intros ->.
  - intros [= <-]. eapply interpolate_name_Raises; [done |].
    apply Hpending. by left.
  - done.
Qed.

Lemma interpolate_Raises keys env fuel st e :
  (forall d, keys d ≡ₚ dict_keys d) ->
  interpolate keys env fuel st = Raises e ->
  exists n, n ∈ renamed_variables /\ e = KeyError ("PY_" +:+ n) /\ env !! n = None.
Proof.
  intros Hkeys. revert st. induction fuel as [|fuel IH]; intros st; simpl;
    case_bool_decide; try done.
  destruct (sweep env (keys (notdone st)) st) as [st1|e'|] eqn:Hsweep; simpl.
  - apply IH.
  - intros [= <-]. eapply sweep_Raises; [| | done].
    + rewrite Hkeys. apply NoDup_fst_map_to_list.
    + intros name. rewrite Hkeys. unfold dict_keys.
      intros ([k text] & -> & Hin)%list_elem_of_fmap.
      apply elem_of_map_to_list in Hin. by exists text.
  - done.
Qed.

(** X2.  Whatever the file, [parse_makefile] raises nothing of its own but
    the [KeyError] of a name [PY_CFLAGS], [PY_LDFLAGS] or [PY_CPPFLAGS] that
    [done] lacks, for a reference to the unprefixed name when the
    environment does not have it: reading [notdone[name]] never fails,
    since a sweep takes each pending name once and a round removes its own
    name only. *)
Theorem parse_makefile_raises_KeyError_only
    (keys : gmap string string -> list string) (environ : gmap string string)
    (fuel : nat) (fp : list string) (g : option (gmap string value))
    (e : exception) :
  (forall d, keys d ≡ₚ dict_keys d) ->
  parse_makefile keys environ fuel fp g = Raises e ->
  exists n, n ∈ renamed_variables /\ e = KeyError ("PY_" +:+ n) /\
            environ !! n = None.
Proof.
  intros Hkeys. unfold parse_makefile.
  destruct (interpolate keys environ fuel (read_lines fp)) as [st'|e'|] eqn:Hloop;
    try done.
  simpl. intros [= <-]. by eapply interpolate_Raises.
Qed.

Lemma parse_makefile_raises_KeyError_only_witness :
  exists n, n ∈ renamed_variables /\
            KeyError "PY_LDFLAGS" = KeyError ("PY_" +:+ n) /\
            (∅ : gmap string string) !! n = None.
Proof.
  apply (parse_makefile_raises_KeyError_only dict_keys ∅ 2
           ["AA = $(BB)"; "BB = x"; "LINK = $(AA) $(LDFLAGS)"] None);
    [intros d; reflexivity | reflexivity].
Defined.

(** X3.  A line that does not begin with a letter (an indented assignment,
    for one), and a line whose second character is not a letter, a digit or
    an underscore (an assignment to a name of one character, such as
    [A = 1]), change nothing. *)
Theorem read_line_ignores (st : state) (line : string) :
  head_in is_alpha line = false \/
  head_in is_name_char (slice_from 1 line) = false ->
  read_line st line = st.
Proof.
  intros H. unfold read_line.
  assert (Hnone : _variable_rx_match line = None); [| by rewrite Hnone].
  unfold _variable_rx_match. destruct line as [|a r]; [done |].
  destruct H as [H | H]; simpl in H; [by rewrite H |].
  destruct (is_alpha a); [| done].
  destruct r as [|b r]; [done |]. simpl in *. by rewrite H.
Qed.

Lemma read_line_ignores_witness :
  read_line (State ∅ ∅) "A = 1" = State ∅ ∅ /\
  read_line (State ∅ ∅) " CC = gcc" = State ∅ ∅.
Proof.
  split; apply read_line_ignores; [by right | by left].
Defined.

(** ** References in a text without other dollars *)

Lemma search_unfold o c s :
  search o c s
  = match reference_at o c s with
    | Some (n, post) => Some (MatchObject "" n post)
    | None =>
        match s with
        | String a r =>
            match search o c r with
            | Some m => Some (MatchObject (String a (m_pre m)) (m_group1 m) (m_post m))
            | None => None
            end
        | "" => None
        end
    end.
Proof. by destruct s. Qed.

Lemma reference_at_not_dollar o c a r :
  Ascii.eqb a "$" = false -> reference_at o c (String a r) = None.
Proof.
  intros Ha. unfold reference_at. destruct r as [|o' [|b r]]; try done.
  by rewrite Ha.
Qed.

Lemma search_no_dollar o c s : contains_dollar s = false -> search o c s = None.
Proof.
  induction s as [|a s IH]; [done |]. simpl contains_dollar.
  intros H. apply orb_false_elim in H as [Ha Hs].
  rewrite search_unfold, reference_at_not_dollar, IH; done.
Qed.

Lemma find_reference_no_dollar s :
  contains_dollar s = false -> find_reference s = None.
Proof.
  intros H. unfold find_reference, _findvar1_rx_search, _findvar2_rx_search.
  by rewrite !search_no_dollar.
Qed.

Lemma search_prefix o c pre s :
  contains_dollar pre = false ->
  search o c (pre +:+ s)
  = match search o c s with
    | Some m => Some (MatchObject (pre +:+ m_pre m) (m_group1 m) (m_post m))
    | None => None
    end.
Proof.
  induction pre as [|a pre IH]; simpl contains_dollar; intros H.
  - change ("" +:+ s) with s. destruct (search o c s) as [[]|]; done.
  - apply orb_false_elim in H as [Ha Hpre].
    change (String a pre +:+ s) with (String a (pre +:+ s)).
    rewrite search_unfold, reference_at_not_dollar, IH by done.
    by destruct (search o c s).
Qed.

Lemma search_reference_exact o c n post :
  is_bracket_pair o c = true -> is_reference_name n = true ->
  search o c (reference o c n +:+ post) = Some (MatchObject "" n post).
Proof.
  intros Hb Hn. by rewrite search_unfold, reference_at_reference.
Qed.

Lemma contains_dollar_app s t :
  contains_dollar (s +:+ t) = contains_dollar s || contains_dollar t.
Proof.
  induction s as [|a s IH]; simpl; [done |]. rewrite IH. by destruct (Ascii.eqb a "$").
Qed.

Lemma search_parens_braces n post :
  is_reference_name n = true -> contains_dollar post = false ->
  search "(" ")" (reference "{" "}" n +:+ post) = None.
Proof.
  intros Hn Hpost. rewrite reference_app, search_unfold.
  assert (Hat : reference_at "(" ")" (String "$" (String "{" (n +:+ String "}" post))) = None).
  { unfold reference_at. by destruct (n +:+ String "}" post). }
  rewrite Hat. rewrite search_no_dollar; [done |].
  simpl. rewrite contains_dollar_app. simpl. rewrite Hpost.
  apply reference_name_run, count_dollar_run, contains_dollar_count in Hn.
  by rewrite Hn.
Qed.

(** In a text with a single dollar, that of a reference, the reference is
    the one found. *)
Lemma find_reference_single pre o c n post :
  is_bracket_pair o c = true -> is_reference_name n = true ->
  contains_dollar pre = false -> contains_dollar post = false ->
  find_reference (pre +:+ reference o c n +:+ post) = Some (MatchObject pre n post).
Proof.
  intros Hb Hn Hpre Hpost.
  unfold find_reference, _findvar1_rx_search, _findvar2_rx_search.
  destruct (bracket_pair_cases o c Hb) as [[-> ->] | [-> ->]].
  - rewrite search_prefix, search_reference_exact by done. simpl.
    by rewrite str_app_nil_r.
  - rewrite (search_prefix "(" ")"), search_parens_braces by done.
    rewrite search_prefix, search_reference_exact by done. simpl.
    by rewrite str_app_nil_r.
Qed.

(** ** A variable with one reference, to a final variable *)

Lemma drop_while_id p s : head_in p s = false -> drop_while p s = s.
Proof. destruct s as [|a s]; [done |]. simpl. by intros ->. Qed.

Lemma rstrip_idempotent s : rstrip (rstrip s) = rstrip s.
Proof.
  induction s as [|c r IH]; [done |]. simpl.
  destruct (rstrip r) as [|c' r'] eqn:E.
  - destruct (is_space c) eqn:Hc; [done |]. simpl. by rewrite Hc.
  - change (rstrip (String c (String c' r')))
      with (match rstrip (String c' r') with
            | "" => if is_space c then "" else String c ""
            | String a x => String c (String a x)
            end).
    by rewrite IH.
Qed.

Lemma strip_idempotent s : strip (strip s) = strip s.
Proof.
  unfold strip at 1. unfold lstrip.
  rewrite drop_while_id by apply strip_trimmed.
  unfold strip. apply rstrip_idempotent.
Qed.

Lemma substitute_final name m item st :
  contains_dollar (m_post m) = false ->
  let text := m_pre m +:+ item +:+ m_post m in
  done (substitute name m item st) !! name = Some (int_or text (VStr (strip text))) /\
  notdone (substitute name m item st) !! name = None.
Proof.
  intros Hpost text. unfold substitute. rewrite Hpost. cbv zeta. fold text.
  destruct (is_prefixed_renamed name) eqn:Hp.
  - apply is_prefixed_renamed_ne in Hp.
    destruct (<[name := int_or text (VStr (strip text))]> (done st)
              !! slice_from 3 name); cbn [done notdone].
    + by rewrite lookup_insert_eq, lookup_delete_eq.
    + by rewrite lookup_insert_ne, lookup_insert_eq, lookup_delete_eq.
  - cbn [done notdone]. by rewrite lookup_insert_eq, lookup_delete_eq.
Qed.

(** The round on such a variable makes it final. *)
Lemma interpolate_name_single env name pre o c n post v st :
  is_bracket_pair o c = true -> is_reference_name n = true ->
  contains_dollar pre = false -> contains_dollar post = false ->
  notdone st !! name = Some (pre +:+ reference o c n +:+ post) ->
  done st !! n = Some v ->
  let text := pre +:+ str v +:+ post in
  exists st', interpolate_name env name st = Returns st' /\
              done st' !! name = Some (int_or text (VStr (strip text))) /\
              notdone st' !! name = None.
Proof.
  intros Hb Hn Hpre Hpost Hname Hv text.
  pose proof (find_reference_single pre o c n post Hb Hn Hpre Hpost) as Hfind.
  eexists. split.
  - eapply interpolate_name_found; [done | done |].
    unfold lookup_reference. cbn [m_group1]. by rewrite Hv.
  - by apply (substitute_final name (MatchObject pre n post)).
Qed.

Lemma sweep_single env names name pre o c n post v st st' :
  is_bracket_pair o c = true -> is_reference_name n = true ->
  contains_dollar pre = false -> contains_dollar post = false ->
  notdone st !! name = Some (pre +:+ reference o c n +:+ post) ->
  done st !! n = Some v -> notdone st !! n = None ->
  name ∈ names ->
  sweep env names st = Returns st' ->
  let text := pre +:+ str v +:+ post in
  done st' !! name = Some (int_or text (VStr (strip text))) /\
  notdone st' !! name = None.
Proof.
  intros Hb Hn Hpre Hpost Hname Hv Hnot Hin Hsweep text. revert st Hname Hv Hnot Hsweep.
  induction names as [|name' names IH]; intros st Hname Hv Hnot Hsweep;
    [by apply elem_of_nil in Hin |].
  simpl in Hsweep.
  destruct (interpolate_name env name' st) as [st1| |] eqn:Hround; try done.
  simpl in Hsweep. destruct (decide (name' = name)) as [-> | Hne].
  - destruct (interpolate_name_single env name pre o c n post v st)
      as (st1' & Hround' & Hdone & Hgone); try done.
    rewrite Hround in Hround'. injection Hround' as <-.
    by eapply sweep_stable.
  - destruct (interpolate_name_stable _ _ _ _ _ _ Hround Hv Hnot).
    apply elem_of_cons in Hin as [-> | Hin]; [done |].
    apply (IH Hin st1); try done.
    by rewrite (interpolate_name_notdone_other _ _ _ _ _ Hround).
Qed.

(** The interpolation of such a variable, in the mapping returned. *)
Lemma parse_makefile_single_reference (keys : gmap string string -> list string)
    (environ : gmap string string) (fuel : nat) (fp : list string)
    (g : option (gmap string value)) (r : gmap string value)
    (name pre n post : string) (o c : ascii) (v : value) :
  (forall d, keys d ≡ₚ dict_keys d) ->
  is_bracket_pair o c = true -> is_reference_name n = true ->
  contains_dollar pre = false -> contains_dollar post = false ->
  notdone (read_lines fp) !! name = Some (pre +:+ reference o c n +:+ post) ->
  done (read_lines fp) !! n = Some v ->
  notdone (read_lines fp) !! n = None ->
  parse_makefile keys environ fuel fp g = Returns r ->
  let text := pre +:+ str v +:+ post in
  r !! name = Some (int_or text (VStr (strip text))).
Proof.
  intros Hkeys Hb Hn Hpre Hpost Hname Hv Hnot Hparse text.
  unfold parse_makefile in Hparse.
  destruct (interpolate keys environ fuel (read_lines fp)) as [st'| |] eqn:Hloop;
    try done.
  simpl in Hparse. injection Hparse as <-.
  apply lookup_union_Some_l. rewrite lookup_fmap.
  assert (Hfinal : done st' !! name = Some (int_or text (VStr (strip text)))).
  { destruct fuel as [|fuel]; simpl in Hloop;
      (case_bool_decide as Hempty;
       [rewrite Hempty, lookup_empty in Hname; done |]); [done |].
    destruct (sweep environ (keys (notdone (read_lines fp))) (read_lines fp))
      as [st1| |] eqn:Hsweep; try done.
    simpl in Hloop.
    destruct (sweep_single environ (keys (notdone (read_lines fp))) name pre
                o c n post v (read_lines fp) st1
                Hb Hn Hpre Hpost Hname Hv Hnot) as [Hdone Hgone]; [| done |].
    - rewrite Hkeys. unfold dict_keys. apply list_elem_of_fmap.
      eexists (name, _). split; [done |]. by apply elem_of_map_to_list.
    - by eapply interpolate_stable. }
  rewrite Hfinal. simpl. unfold int_or.
  destruct (int_of_str text); [done |]. simpl. by rewrite strip_idempotent.
Qed.

(** X4.  A variable whose right-hand side holds one dollar, that of a
    reference to a variable assigned a text without dollar (and never
    pending), is in the mapping returned with the text of that variable
    put in place of the reference, as an [int] if [int()] accepts the new
    text and stripped otherwise: whatever the other lines and the order of
    the sweeps. *)
Theorem single_reference_resolved (keys : gmap string string -> list string)
    (environ : gmap string string) (fuel : nat) (fp : list string)
    (g : option (gmap string value)) (r : gmap string value)
    (name pre n post : string) (o c : ascii) (v : value) :
  (forall d, keys d ≡ₚ dict_keys d) ->
  is_bracket_pair o c = true -> is_reference_name n = true ->
  contains_dollar pre = false -> contains_dollar post = false ->
  notdone (read_lines fp) !! name = Some (pre +:+ reference o c n +:+ post) ->
  done (read_lines fp) !! n = Some v ->
  notdone (read_lines fp) !! n = None ->
  parse_makefile keys environ fuel fp g = Returns r ->
  let text := pre +:+ str v +:+ post in
  r !! name = Some (int_or text (VStr (strip text))).
Proof. apply parse_makefile_single_reference. Qed.

Lemma single_reference_resolved_witness :
  let fp := ["prefix = /usr"; "LIBDIR = ${prefix}/lib "; "DIRS = $(LIBDIR) $(BINDIR)"] in
  let r : gmap string value :=
    {[ "prefix" := VStr "/usr"; "LIBDIR" := VStr "/usr/lib"; "BINDIR" := VStr "";
       "DIRS" := VStr "/usr/lib" ]} in
  parse_makefile dict_keys ∅ 3 fp None = Returns r /\
  r !! "LIBDIR" = Some (VStr "/usr/lib").
Proof.
  intros fp r.
  assert (Hr : parse_makefile dict_keys ∅ 3 fp None = Returns r) by reflexivity.
  split; [exact Hr |].
  apply (single_reference_resolved dict_keys ∅ 3 fp None r "LIBDIR" "" "prefix"
           "/lib" "{" "}" (VStr "/usr"));
    [intros d; reflexivity | reflexivity | reflexivity | reflexivity
    | reflexivity | reflexivity | reflexivity | reflexivity | exact Hr].
Defined.

(** ** Integers through a reference *)

Lemma digits_value_of_uint_acc d acc :
  digits_value (Zpos acc) (NilEmpty.string_of_uint d)
  = Some (Zpos (Pos.of_uint_acc d acc)).
Proof.
  revert acc. induction d; intros acc; [done |..];
    cbn [NilEmpty.string_of_uint digits_value Pos.of_uint_acc];
    (replace (is_digit _) with true by done);
    rewrite <- IHd; f_equal;
    match goal with
    | |- context [digit_value ?c] =>
        let v := eval vm_compute in (digit_value c) in
        change (digit_value c) with v
    end; lia.
Qed.

Lemma digits_value_of_uint d :
  digits_value 0 (NilEmpty.string_of_uint d) = Some (Z.of_uint d).
Proof.
  unfold Z.of_uint. induction d; [done |..];
    cbn [NilEmpty.string_of_uint digits_value Pos.of_uint];
    (replace (is_digit _) with true by done);
    match goal with
    | |- context [digit_value ?c] =>
        let v := eval vm_compute in (digit_value c) in
        change (digit_value c) with v
    end; cbn [Z.mul Z.add]; try done; apply digits_value_of_uint_acc.
Qed.

Lemma string_of_uint_digits d :
  all_chars is_digit (NilEmpty.string_of_uint d) = true.
Proof. induction d; simpl; done. Qed.

Lemma digit_not_space c : is_digit c = true -> is_space c = false.
Proof. by destruct c as [[] [] [] [] [] [] [] []]. Qed.

Lemma rstrip_id_digits s : all_chars is_digit s = true -> rstrip s = s.
Proof.
  induction s as [|c r IH]; [done |]. simpl. intros H.
  apply andb_prop in H as [Hc Hr]. rewrite (IH Hr).
  destruct r; [| done]. by rewrite (digit_not_space c Hc).
Qed.

Lemma unsigned_value_to_uint p :
  unsigned_value (NilEmpty.string_of_uint (Pos.to_uint p)) = Some (Zpos p).
Proof.
  unfold unsigned_value.
  destruct (NilEmpty.string_of_uint (Pos.to_uint p)) eqn:E.
  - pose proof (DecimalPos.Unsigned.to_uint_nonnil p) as Hnil.
    by destruct (Pos.to_uint p).
  - rewrite <- E, digits_value_of_uint. unfold Z.of_uint.
    by rewrite DecimalPos.Unsigned.of_to.
Qed.

(** [int(str(i))] is [i]. *)
Lemma int_of_str_of_int z : int_of_str (str_of_int z) = Some z.
Proof.
  unfold str_of_int, int_of_str. destruct z as [|p|p]; [done |..];
    cbn [Z.to_int NilEmpty.string_of_int].
  - pose proof (string_of_uint_digits (Pos.to_uint p)) as Hd.
    pose proof (unsigned_value_to_uint p) as Hv.
    destruct (NilEmpty.string_of_uint (Pos.to_uint p)) as [|c r] eqn:E; [done |].
    unfold strip, lstrip. simpl in Hd. apply andb_prop in Hd as [Hc Hr].
    rewrite drop_while_id by (simpl; by apply digit_not_space).
    rewrite rstrip_id_digits by (simpl; by rewrite Hc).
    replace (Ascii.eqb c "-") with false
      by (by destruct c as [[] [] [] [] [] [] [] []]).
    replace (Ascii.eqb c "+") with false
      by (by destruct c as [[] [] [] [] [] [] [] []]).
    done.
  - pose proof (string_of_uint_digits (Pos.to_uint p)) as Hd.
    unfold strip, lstrip. rewrite drop_while_id by done.
    change (rstrip (String "-" ?s)) with (rstrip (String "-" s)).
    assert (Hr : rstrip (String "-" (NilEmpty.string_of_uint (Pos.to_uint p)))
                 = String "-" (NilEmpty.string_of_uint (Pos.to_uint p))).
    { simpl. rewrite (rstrip_id_digits _ Hd).
      by destruct (NilEmpty.string_of_uint (Pos.to_uint p)). }
    rewrite Hr. simpl. by rewrite unsigned_value_to_uint.
Qed.

(** X5.  A variable whose right-hand side is nothing but a reference to a
    variable holding an [int] is in the mapping returned with that same
    [int]: the number is written in decimal for the substitution and
    [int()] reads it back. *)
Theorem reference_to_int_is_int (keys : gmap string string -> list string)
    (environ : gmap string string) (fuel : nat) (fp : list string)
    (g : option (gmap string value)) (r : gmap string value)
    (name n : string) (o c : ascii) (z : Z) :
  (forall d, keys d ≡ₚ dict_keys d) ->
  is_bracket_pair o c = true -> is_reference_name n = true ->
  notdone (read_lines fp) !! name = Some (reference o c n) ->
  done (read_lines fp) !! n = Some (VInt z) ->
  notdone (read_lines fp) !! n = None ->
  parse_makefile keys environ fuel fp g = Returns r ->
  r !! name = Some (VInt z).
Proof.
  intros Hkeys Hb Hn Hname Hv Hnot Hparse.
  rewrite (parse_makefile_single_reference keys environ fuel fp g r
             name "" n "" o c (VInt z)); try done.
  - simpl. rewrite str_app_nil_r. unfold int_or. by rewrite int_of_str_of_int.
  - by rewrite str_app_nil_r.
Qed.

Lemma reference_to_int_is_int_witness :
  let fp := ["SIZEOF_LONG = -08"; "WORD = $(SIZEOF_LONG)"] in
  let r : gmap string value := {[ "SIZEOF_LONG" := VInt (-8); "WORD" := VInt (-8) ]} in
  parse_makefile dict_keys ∅ 1 fp None = Returns r /\
  r !! "WORD" = Some (VInt (-8)).
Proof.
  intros fp r.
  assert (Hr : parse_makefile dict_keys ∅ 1 fp None = Returns r) by reflexivity.
  split; [exact Hr |].
  apply (reference_to_int_is_int dict_keys ∅ 1 fp None r "WORD" "SIZEOF_LONG" "(" ")");
    [intros d; reflexivity | reflexivity | reflexivity | reflexivity
    | reflexivity | reflexivity | exact Hr].
Defined.

(** * Further properties of [expand_makefile_vars] *)

Lemma find_reference_Some s m :
  find_reference s = Some m ->
  exists o c, is_bracket_pair o c = true /\
              is_reference_name (m_group1 m) = true /\
              s = m_pre m +:+ reference o c (m_group1 m) +:+ m_post m.
Proof.
  unfold find_reference, _findvar1_rx_search, _findvar2_rx_search.
  destruct (search "(" ")" s) as [m1|] eqn:E1.
  - intros [= <-]. apply search_Some in E1 as [Hs Hn].
    by exists "("%char, ")"%char.
  - intros E2. apply search_Some in E2 as [Hs Hn].
    by exists "{"%char, "}"%char.
Qed.

Lemma expand_makefile_vars_ends vars fuel s :
  values_without_dollar vars = true ->
  count_dollar s <= fuel ->
  (exists r, expand_makefile_vars fuel s vars = Returns r /\
             find_reference r = None /\ count_dollar r <= count_dollar s) \/
  expand_makefile_vars fuel s vars = Raises TypeError.
Proof.
  intros Hvars. revert s. induction fuel as [|fuel IH]; intros s Hcount.
  - left. exists s. destruct (find_reference s) as [m|] eqn:Hfind.
    + apply find_reference_Some in Hfind as (o & c & Hb & Hn & Hs).
      rewrite Hs, count_dollar_app, count_dollar_reference in Hcount by done. lia.
    + simpl. by rewrite Hfind.
  - simpl. destruct (find_reference s) as [m|] eqn:Hfind; [| left; by exists s].
    destruct (vars !! m_group1 m) as [[z|t]|] eqn:Hk; [by right | | by right].
    apply find_reference_Some in Hfind as (o & c & Hb & Hn & Hs).
    pose proof (values_without_dollar_lookup vars _ t Hvars Hk) as Ht.
    assert (Hless : S (count_dollar (m_pre m +:+ t +:+ m_post m)) = count_dollar s).
    { rewrite Hs.
      rewrite (count_dollar_app _ (reference o c (m_group1 m) +:+ m_post m)),
        count_dollar_reference by done.
      rewrite !count_dollar_app, Ht. lia. }
    destruct (IH (m_pre m +:+ t +:+ m_post m)) as [(r & Hr & Hnone & Hle) | Hraise];
      [lia | left | by right].
    exists r. repeat split; [done | done | lia].
Qed.

(** X6.  With a mapping none of whose strings holds a dollar,
    [expand_makefile_vars] ends within as many substitutions as the string
    has dollars: it returns a string in which no reference of either form
    is left, or it raises [TypeError] (a name the mapping lacks, or one
    that stands for an [int]). *)
Theorem expand_makefile_vars_terminates (vars : gmap string value)
    (fuel : nat) (s : string) :
  values_without_dollar vars = true ->
  count_dollar s <= fuel ->
  (exists r, expand_makefile_vars fuel s vars = Returns r /\
             find_reference r = None /\ count_dollar r <= count_dollar s) \/
  expand_makefile_vars fuel s vars = Raises TypeError.
Proof. apply expand_makefile_vars_ends. Qed.

Lemma expand_makefile_vars_terminates_witness :
  let vars : gmap string value :=
    {[ "prefix" := VStr "/usr"; "VERSION" := VStr "3.2" ]} in
  let s := "${prefix}/lib/python$(VERSION)/config $$" in
  (exists r, expand_makefile_vars 4 s vars = Returns r /\
             find_reference r = None /\ count_dollar r <= count_dollar s) \/
  expand_makefile_vars 4 s vars = Raises TypeError.
Proof.
  intros vars s.
  apply (expand_makefile_vars_terminates vars 4 s); [reflexivity | vm_compute; lia].
Defined.

Lemma expand_makefile_vars_no_dollar vars fuel s :
  contains_dollar s = false -> expand_makefile_vars fuel s vars = Returns s.
Proof.
  intros H. apply find_reference_no_dollar in H.
  destruct fuel; simpl; by rewrite H.
Qed.

(** X7.  A reference, of either form, that stands in a text without other
    dollars for a name whose string in the mapping has no dollar is
    replaced by that string, the text around it kept as it is; a text
    without dollar is returned as it is. *)
Theorem expand_makefile_vars_substitutes (vars : gmap string value)
    (fuel : nat) (pre n post item : string) (o c : ascii) :
  is_bracket_pair o c = true -> is_reference_name n = true ->
  contains_dollar pre = false -> contains_dollar post = false ->
  vars !! n = Some (VStr item) -> contains_dollar item = false ->
  expand_makefile_vars (S fuel) (pre +:+ reference o c n +:+ post) vars
  = Returns (pre +:+ item +:+ post) /\
  expand_makefile_vars fuel (pre +:+ item +:+ post) vars
  = Returns (pre +:+ item +:+ post).
Proof.
  intros Hb Hn Hpre Hpost Hitem Hfree.
  assert (Hsame : expand_makefile_vars fuel (pre +:+ item +:+ post) vars
                  = Returns (pre +:+ item +:+ post)).
  { apply expand_makefile_vars_no_dollar.
    by rewrite !contains_dollar_app, Hpre, Hfree, Hpost. }
  split; [| done]. cbn [expand_makefile_vars].
  rewrite find_reference_single by done. cbn [m_group1 m_pre m_post].
  by rewrite Hitem.
Qed.

Lemma expand_makefile_vars_substitutes_witness :
  expand_makefile_vars 1 "-I${prefix}/include" {[ "prefix" := VStr "/usr" ]}
  = Returns "-I/usr/include" /\
  expand_makefile_vars 0 "-I/usr/include" {[ "prefix" := VStr "/usr" ]}
  = Returns "-I/usr/include".
Proof.
  apply (expand_makefile_vars_substitutes _ 0 "-I" "prefix" "/include" "/usr" "{" "}");
    reflexivity.
Defined.

(** * Further properties of [parse_config_h] *)

Lemma all_chars_dot_newline s r : all_chars is_dot (s +:+ String newline r) = false.
Proof.
  rewrite all_chars_app. cbn [all_chars]. unfold is_dot.
  rewrite Ascii.eqb_refl. cbn [negb andb]. apply andb_false_r.
Qed.

Lemma define_line_newline n v rest : all_chars is_dot (define_line n v rest) = false.
Proof.
  unfold define_line. rewrite <- !str_app_assoc. apply all_chars_dot_newline.
Qed.

Lemma undef_line_newline n rest : all_chars is_dot (undef_line n rest) = false.
Proof.
  unfold undef_line. rewrite <- !str_app_assoc. apply all_chars_dot_newline.
Qed.

Lemma parse_config_h_line_no_newline g line :
  all_chars is_dot line = true -> parse_config_h_line g line = g.
Proof.
  intros Hline. unfold parse_config_h_line.
  destruct (define_rx_match line) as [[n v]|] eqn:Hd.
  - apply define_rx_match_Some in Hd as (rest & -> & _).
    by rewrite define_line_newline in Hline.
  - destruct (undef_rx_match line) as [n|] eqn:Hu; [| done].
    apply undef_rx_match_Some in Hu as (rest & -> & _).
    by rewrite undef_line_newline in Hline.
Qed.

Lemma parse_config_h_loop_app fp last g :
  Forall (fun line => line <> "") fp ->
  parse_config_h_loop (fp ++ [last]) g
  = parse_config_h_loop [last] (parse_config_h_loop fp g).
Proof.
  intros Hfp. revert g. induction Hfp as [|line fp Hline _ IH]; intros g; [done |].
  cbn [app parse_config_h_loop].
  destruct (String.eqb_spec line "") as [-> |]; [done |]. apply IH.
Qed.

(** X8.  Both patterns of [parse_config_h] end with a newline: the last
    line of a file that does not end with a newline is lost, be it a
    [#define]. *)
Theorem parse_config_h_unterminated_line (fp : list string) (last : string)
    (g : option (gmap string value)) :
  Forall (fun line => line <> "") fp ->
  all_chars is_dot last = true ->
  parse_config_h (fp ++ [last]) g = parse_config_h fp g.
Proof.
  intros Hfp Hlast. unfold parse_config_h.
  rewrite parse_config_h_loop_app by done. simpl.
  destruct (String.eqb last ""); [done |].
  by apply parse_config_h_line_no_newline.
Qed.

Lemma parse_config_h_unterminated_line_witness :
  parse_config_h ([define_line "HAVE_FORK" "1" ""] ++ ["#define HAVE_GETC 1"]) None
  = parse_config_h [define_line "HAVE_FORK" "1" ""] None.
Proof.
  apply parse_config_h_unterminated_line; [| reflexivity].
  repeat constructor. discriminate.
Defined.

(** * Further properties of [get_config_vars] *)

Section Accessors.

Variable p : platform.

(** X9.  Once the dictionary exists, a call with names returns, in their
    order, what the dictionary holds under each name and [None] for a name
    it does not hold; it raises nothing and changes nothing. *)
Theorem get_config_vars_names (s : module_state) (address : positive)
    (d : gmap string value) (name : string) (names : list string) :
  _config_vars s = Some address ->
  heap s !! address = Some d ->
  get_config_vars p (name :: names) s
  = (Returns (TheList ((fun k => d !! k) <$> name :: names)), s).
Proof.
  intros Hset Hd. unfold get_config_vars. rewrite Hset. simpl.
  rewrite Hset, Hd. simpl. do 3 f_equal.
Qed.

(** X10.  [get_config_var(name)] is the one value that
    [get_config_vars(name)] returns in its list, and leaves the module in
    the same state. *)
Theorem get_config_var_get_config_vars (name : string) (s s' : module_state)
    (v : option value) :
  get_config_var p name s = (Returns v, s') <->
  get_config_vars p [name] s = (Returns (TheList [v]), s').
Proof.
  unfold get_config_var, get_config_vars.
  destruct (_config_vars s) as [a|] eqn:Ha; simpl.
  - rewrite Ha. simpl. split; intros [= <- <-]; done.
  - destruct (initialise p s) as [[[]|e|] s1]; simpl;
      [| split; done | split; done].
    destruct (_config_vars s1) as [a|]; simpl; [| split; done].
    split; intros [= <- <-]; done.
Qed.

(** X11.  When the function of the platform raises, nothing is kept: the
    global is still [None], and the next call runs the initialisation
    again. *)
Theorem failed_initialisation_retried (args : list string) (s : module_state)
    (e : exception) :
  _config_vars s = None ->
  init_os p (init_runs s) = Some (Raises e) ->
  let s' := (get_config_vars p args s).2 in
  (get_config_vars p args s).1 = Raises e /\
  _config_vars s' = None /\ heap s' = heap s /\
  (get_config_vars p args s').2 = (initialise p s').2 /\
  init_runs (get_config_vars p args s').2 = S (S (init_runs s)).
Proof.
  intros Hnone Hinit.
  assert (Hcall : get_config_vars p args s
                  = (Raises e, ModuleState None (heap s) (S (init_runs s)))).
  { unfold get_config_vars. rewrite Hnone. unfold initialise.
    rewrite Hinit, Hnone. done. }
  rewrite Hcall. cbn [fst snd _config_vars heap].
  repeat split.
  - unfold get_config_vars. cbn [_config_vars].
    by destruct (initialise p _) as [[[]|e'|] s1]; simpl;
      [destruct (_config_vars s1), args |..].
  - set (s' := ModuleState None (heap s) (S (init_runs s))).
    assert (Hruns : init_runs (get_config_vars p args s').2
                    = init_runs (initialise p s').2).
    { unfold get_config_vars. cbn [_config_vars s'].
      by destruct (initialise p _) as [[[]|e'|] s1]; simpl;
        [destruct (_config_vars s1), args |..]. }
    by rewrite Hruns, initialise_runs.
Qed.

(** X12.  When the adjustments made after the function of the platform
    raise, the dictionary is kept as they left it: the call raises, and
    every later call returns that dictionary without running anything
    again. *)
Theorem interrupted_adjustment_kept (args : list string) (s : module_state)
    (g : gmap string value) (e : exception) :
  _config_vars s = None ->
  default (Returns ∅) (init_os p (init_runs s)) = Returns g ->
  (adjust p (init_runs s)
     (<["exec_prefix" := VStr (EXEC_PREFIX p)]> (<["prefix" := VStr (PREFIX p)]> g))).2
  = Some e ->
  let s' := (get_config_vars p args s).2 in
  (get_config_vars p args s).1 = Raises e /\
  exists address,
    get_config_vars p [] s' = (Returns (TheDict address), s') /\
    heap s' !! address
    = Some (adjust p (init_runs s)
              (<["exec_prefix" := VStr (EXEC_PREFIX p)]>
                 (<["prefix" := VStr (PREFIX p)]> g))).1.
Proof.
  intros Hnone Hinit Hadjust.
  unfold get_config_vars at 1 2. rewrite Hnone. unfold initialise.
  rewrite Hinit, Hadjust. cbn [fst snd]. split; [done |].
  eexists. split.
  - by apply get_config_vars_set.
  - cbn [heap]. by rewrite lookup_insert_eq.
Qed.

End Accessors.

Lemma get_config_vars_names_witness :
  let p := Platform "/usr" "/usr" (fun _ => None) (fun _ g => (g, None)) in
  let s := (get_config_vars p [] (ModuleState None ∅ 0)).2 in
  get_config_vars p ["prefix"; "CC"] s
  = (Returns (TheList [Some (VStr "/usr"); None]), s).
Proof.
  intros p s.
  rewrite (get_config_vars_names p s 1%positive
             {[ "prefix" := VStr "/usr"; "exec_prefix" := VStr "/usr" ]});
    reflexivity.
Defined.

Lemma failed_initialisation_retried_witness :
  let p := Platform "/usr" "/usr"
             (fun k => Some (match k with
                             | O => Raises (OtherError "unable to open Makefile")
                             | _ => Returns ∅
                             end))
             (fun _ g => (g, None)) in
  let s := ModuleState None ∅ 0 in
  (get_config_vars p [] s).1 = Raises (OtherError "unable to open Makefile") /\
  (get_config_vars p [] (get_config_vars p [] s).2).1 = Returns (TheDict 1%positive).
Proof.
  intros p s.
  destruct (failed_initialisation_retried p [] s (OtherError "unable to open Makefile"))
    as (Hraise & _); [reflexivity | reflexivity |].
  split; [exact Hraise | reflexivity].
Defined.

Lemma interrupted_adjustment_kept_witness :
  let p := Platform "/usr" "/usr" (fun _ => None)
             (fun _ g => (g, Some (KeyError "srcdir"))) in
  let s := ModuleState None ∅ 0 in
  (get_config_vars p [] s).1 = Raises (KeyError "srcdir") /\
  (get_config_vars p [] (get_config_vars p [] s).2).1 = Returns (TheDict 1%positive).
Proof.
  intros p s.
  destruct (interrupted_adjustment_kept p [] s ∅ (KeyError "srcdir"))
    as (Hraise & address & Hagain & _); [reflexivity | reflexivity | reflexivity |].
  split; [exact Hraise | reflexivity].
Defined.

(** * [customize_compiler] *)

Lemma py_add_adds a b : adds (py_add a b).
Proof. unfold adds, py_add. destruct a as [[]|], b as [[]|]; eauto. Qed.

Lemma add_spaced_adds a b : adds (add_spaced a b).
Proof.
  unfold add_spaced. destruct (py_add_adds a (Some (VStr " "))) as [-> | [t ->]];
    [by left |]. apply py_add_adds.
Qed.

Lemma bind_adds {A} (x : outcome (option value)) (f : option value -> outcome A) :
  adds x -> (forall v, f v = Raises TypeError) -> x ≫= f = Raises TypeError.
Proof. intros [-> | [v ->]] Hf; [done | apply Hf]. Qed.

Lemma add_spaced_not_str a b :
  (forall x, a <> Some (VStr x)) -> add_spaced a b = Raises TypeError.
Proof.
  intros Ha. unfold add_spaced, py_add. destruct a as [[z|x]|]; try done.
  by destruct (Ha x).
Qed.

Lemma add_spaced_Returns a b v :
  add_spaced a b = Returns v ->
  exists x y, a = Some (VStr x) /\ b = Some (VStr y) /\
              v = Some (VStr ((x +:+ " ") +:+ y)).
Proof.
  unfold add_spaced, py_add. destruct a as [[z|x]|]; try done. simpl.
  destruct b as [[z|y]|]; try done. intros [= <-]. by exists x, y.
Qed.

Lemma bind_Returns {A B} (x : outcome A) (f : A -> outcome B) b :
  x ≫= f = Returns b -> exists a, x = Returns a /\ f a = Returns b.
Proof. destruct x as [a| |]; try done. intros H. by exists a. Qed.

Lemma customize_unix_needs_CC environ cc cxx opt cflags ccshared ldshared so_ext
    ar ar_flags c :
  environ !! "CC" = None -> (forall x, cc <> Some (VStr x)) ->
  customize_unix environ cc cxx opt cflags ccshared ldshared so_ext ar ar_flags c
  = Raises TypeError.
Proof.
  intros Henv Hcc. unfold customize_unix. rewrite Henv.
  cbn [fmap option_fmap option_map].
  do 8 (apply bind_adds;
        [ repeat case_match;
          first [apply add_spaced_adds | apply py_add_adds | right; by eexists]
        | intros ?]).
  by rewrite add_spaced_not_str.
Qed.

Section Customize.

Variable p : platform.
Variable environ : gmap string string.

Lemma customize_compiler_unix c s address d :
  compiler_type c = "unix" ->
  _config_vars s = Some address -> heap s !! address = Some d ->
  customize_compiler p environ c s
  = (customize_unix environ (d !! "CC") (d !! "CXX") (d !! "OPT") (d !! "CFLAGS")
       (d !! "CCSHARED") (d !! "LDSHARED") (d !! "SO") (d !! "AR")
       (d !! "ARFLAGS") c, s).
Proof.
  intros Hunix Hset Hd. unfold customize_compiler. rewrite Hunix.
  cbn [String.eqb Ascii.eqb Bool.eqb].
  by rewrite (get_config_vars_names p s address d).
Qed.

(** X13.  For a compiler of type [unix], [customize_compiler] needs a
    command of the C compiler: when the environment has no [CC] and the
    configuration holds no string under [CC], it raises [TypeError],
    whatever else is configured, and sets nothing. *)
Theorem customize_compiler_needs_CC (c : ccompiler) (s : module_state)
    (address : positive) (d : gmap string value) :
  compiler_type c = "unix" ->
  _config_vars s = Some address -> heap s !! address = Some d ->
  environ !! "CC" = None ->
  (forall x, d !! "CC" <> Some (VStr x)) ->
  customize_compiler p environ c s = (Raises TypeError, s).
Proof.
  intros Hunix Hset Hd Henv Hcc.
  rewrite (customize_compiler_unix c s address d) by done.
  by rewrite customize_unix_needs_CC.
Qed.

(** X14.  When the environment has [CFLAGS], the flags of the compiler are
    [OPT] of the configuration and [CFLAGS] of the environment, followed by
    [CPPFLAGS] of the environment if it has that: what the configuration
    holds under [CFLAGS] has no part in the outcome, and where the call
    returns, the command [compiler] is the command of the C compiler, a
    space and these flags, [OPT] being a string. *)
Theorem customize_compiler_environ_CFLAGS (c : ccompiler) (s : module_state)
    (address : positive) (d : gmap string value) (flags : string)
    (other : option value) :
  compiler_type c = "unix" ->
  _config_vars s = Some address -> heap s !! address = Some d ->
  environ !! "CFLAGS" = Some flags ->
  let s' := ModuleState (Some address)
              (<[address := partial_alter (fun _ => other) "CFLAGS" d]> (heap s))
              (init_runs s) in
  (customize_compiler p environ c s').1 = (customize_compiler p environ c s).1 /\
  forall c' s2, customize_compiler p environ c s = (Returns c', s2) ->
    exists e cc opt,
      set_executables c' = Some e /\ d !! "OPT" = Some (VStr opt) /\
      linker_exe e = Some (VStr cc) /\
      compiler e
      = Some (VStr ((cc +:+ " ") +:+
                    match environ !! "CPPFLAGS" with
                    | Some cppflags => (((opt +:+ " ") +:+ flags) +:+ " ") +:+ cppflags
                    | None => (opt +:+ " ") +:+ flags
                    end)).
Proof.
  intros Hunix Hset Hd Henv s'. split.
  - rewrite (customize_compiler_unix c s address d) by done.
    rewrite (customize_compiler_unix c s' address
               (partial_alter (fun _ => other) "CFLAGS" d));
      [| done | done | by apply lookup_insert_eq].
    rewrite (lookup_partial_alter_ne _ _ "CFLAGS" "CC"),
      (lookup_partial_alter_ne _ _ "CFLAGS" "CXX"),
      (lookup_partial_alter_ne _ _ "CFLAGS" "OPT"),
      (lookup_partial_alter_ne _ _ "CFLAGS" "CCSHARED"),
      (lookup_partial_alter_ne _ _ "CFLAGS" "LDSHARED"),
      (lookup_partial_alter_ne _ _ "CFLAGS" "SO"),
      (lookup_partial_alter_ne _ _ "CFLAGS" "AR"),
      (lookup_partial_alter_ne _ _ "CFLAGS" "ARFLAGS") by done.
    cbn [fst]. unfold customize_unix. rewrite Henv.
    by cbn [fmap option_fmap option_map].
  - intros c' s2. rewrite (customize_compiler_unix c s address d) by done.
    intros [= Hbody <-]. unfold customize_unix in Hbody.
    rewrite Henv in Hbody. cbn [fmap option_fmap option_map] in Hbody.
    do 2 (apply bind_Returns in Hbody as (? & _ & Hbody)).
    apply bind_Returns in Hbody as (cflags1 & Hflags1 & Hbody).
    do 2 (apply bind_Returns in Hbody as (? & _ & Hbody)).
    apply bind_Returns in Hbody as (cflags2 & Hflags2 & Hbody).
    do 2 (apply bind_Returns in Hbody as (? & _ & Hbody)).
    apply bind_Returns in Hbody as (cc_cmd & Hcmd & Hbody).
    apply bind_Returns in Hbody as (cc_so & _ & Hbody).
    injection Hbody as <-.
    apply add_spaced_Returns in Hflags1 as (opt & ? & Hopt & [= <-] & ->).
    apply add_spaced_Returns in Hcmd as (cc & cflags & Hcc & -> & ->).
    eexists (Executables _ _ _ _ _ _ _), cc, opt.
    cbn [set_executables linker_exe compiler]. rewrite Hcc.
    split; [done |]. split; [done |]. split; [done |].
    destruct (environ !! "CPPFLAGS") as [cppflags|];
      cbn [fmap option_fmap option_map] in Hflags2.
    + apply add_spaced_Returns in Hflags2 as (? & ? & [= <-] & [= <-] & [= <-]).
      done.
    + by injection Hflags2 as <-.
Qed.

(** X15.  When [customize_compiler] returns for a compiler of type [unix],
    the executables it sets are tied together: [linker_exe] is the command
    of the C compiler, [compiler] is that command, a space and the flags,
    and [compiler_so] is [compiler], a space and [CCSHARED] of the
    configuration, which is a string. *)
Theorem customize_compiler_executables (c c' : ccompiler) (s s' : module_state)
    (address : positive) (d : gmap string value) :
  compiler_type c = "unix" ->
  _config_vars s = Some address -> heap s !! address = Some d ->
  customize_compiler p environ c s = (Returns c', s') ->
  exists e cc flags ccshared,
    set_executables c' = Some e /\ shared_lib_extension c' = d !! "SO" /\
    d !! "CCSHARED" = Some (VStr ccshared) /\
    linker_exe e = Some (VStr cc) /\
    compiler e = Some (VStr ((cc +:+ " ") +:+ flags)) /\
    compiler_so e = Some (VStr ((((cc +:+ " ") +:+ flags) +:+ " ") +:+ ccshared)).
Proof.
  intros Hunix Hset Hd.
  rewrite (customize_compiler_unix c s address d) by done.
  intros [= Hbody <-]. unfold customize_unix in Hbody.
  do 8 (apply bind_Returns in Hbody as (? & _ & Hbody)).
  apply bind_Returns in Hbody as (cc_cmd & Hcmd & Hbody).
  apply bind_Returns in Hbody as (cc_so & Hso & Hbody).
  injection Hbody as <-.
  apply add_spaced_Returns in Hcmd as (cc & flags & Hcc & _ & ->).
  apply add_spaced_Returns in Hso as (? & ccshared & [= <-] & Hshared & ->).
  eexists (Executables _ _ _ _ _ _ _), cc, flags, ccshared.
  cbn [set_executables shared_lib_extension linker_exe compiler compiler_so].
  by rewrite Hcc.
Qed.

End Customize.

Lemma customize_compiler_needs_CC_witness :
  let p := Platform "/usr" "/usr" (fun _ => None) (fun _ g => (g, None)) in
  let d : gmap string value := {[ "CFLAGS" := VStr "-O2"; "AR" := VStr "ar" ]} in
  let s := ModuleState (Some 1%positive) {[ 1%positive := d ]} 1 in
  customize_compiler p {[ "CPP" := "cpp" ]} (CCompiler "unix" None None) s
  = (Raises TypeError, s).
Proof.
  intros p d s.
  apply (customize_compiler_needs_CC p _ _ s 1%positive d);
    [reflexivity | reflexivity | reflexivity | reflexivity |].
  intros x. discriminate.
Defined.

Lemma customize_compiler_environ_CFLAGS_witness :
  let p := Platform "/usr" "/usr" (fun _ => None) (fun _ g => (g, None)) in
  let environ : gmap string string := {[ "CFLAGS" := "-g" ]} in
  let d : gmap string value :=
    {[ "CC" := VStr "gcc"; "OPT" := VStr "-O3"; "CFLAGS" := VStr "-Wall";
       "CCSHARED" := VStr "-fPIC"; "LDSHARED" := VStr "gcc -shared";
       "AR" := VStr "ar"; "ARFLAGS" := VStr "rc" ]} in
  let s := ModuleState (Some 1%positive) {[ 1%positive := d ]} 1 in
  let s' := ModuleState (Some 1%positive)
              (<[1%positive := partial_alter (fun _ => None) "CFLAGS" d]> (heap s)) 1 in
  let c' := CCompiler "unix"
              (Some (Executables (Some (VStr "gcc -E")) (Some (VStr "gcc -O3 -g"))
                       (Some (VStr "gcc -O3 -g -fPIC")) None
                       (Some (VStr "gcc -shared -g"))
                       (Some (VStr "gcc")) (Some (VStr "ar rc"))))
              None in
  (customize_compiler p environ (CCompiler "unix" None None) s').1
  = (customize_compiler p environ (CCompiler "unix" None None) s).1 /\
  customize_compiler p environ (CCompiler "unix" None None) s = (Returns c', s) /\
  exists e cc opt,
    set_executables c' = Some e /\ d !! "OPT" = Some (VStr opt) /\
    linker_exe e = Some (VStr cc) /\
    compiler e
    = Some (VStr ((cc +:+ " ") +:+
                  match environ !! "CPPFLAGS" with
                  | Some cppflags => (((opt +:+ " ") +:+ "-g") +:+ " ") +:+ cppflags
                  | None => (opt +:+ " ") +:+ "-g"
                  end)).
Proof.
  intros p environ d s s' c'.
  assert (H : customize_compiler p environ (CCompiler "unix" None None) s
              = (Returns c', s)) by reflexivity.
  destruct (customize_compiler_environ_CFLAGS p environ (CCompiler "unix" None None)
              s 1%positive d "-g" None) as [Hsame Hflags];
    [reflexivity | reflexivity | reflexivity | reflexivity |].
  split; [exact Hsame |]. split; [exact H |]. exact (Hflags c' s H).
Defined.

Lemma customize_compiler_executables_witness :
  let p := Platform "/usr" "/usr" (fun _ => None) (fun _ g => (g, None)) in
  let d : gmap string value :=
    {[ "CC" := VStr "gcc"; "CFLAGS" := VStr "-Wall"; "CCSHARED" := VStr "-fPIC";
       "AR" := VStr "ar"; "ARFLAGS" := VStr "rc"; "SO" := VStr ".so" ]} in
  let s := ModuleState (Some 1%positive) {[ 1%positive := d ]} 1 in
  let c' := CCompiler "unix"
              (Some (Executables (Some (VStr "gcc -E")) (Some (VStr "gcc -Wall"))
                       (Some (VStr "gcc -Wall -fPIC")) None None
                       (Some (VStr "gcc")) (Some (VStr "ar rc"))))
              (Some (VStr ".so")) in
  customize_compiler p ∅ (CCompiler "unix" None None) s = (Returns c', s) /\
  exists e cc flags ccshared,
    set_executables c' = Some e /\ shared_lib_extension c' = d !! "SO" /\
    d !! "CCSHARED" = Some (VStr ccshared) /\
    linker_exe e = Some (VStr cc) /\
    compiler e = Some (VStr ((cc +:+ " ") +:+ flags)) /\
    compiler_so e = Some (VStr ((((cc +:+ " ") +:+ flags) +:+ " ") +:+ ccshared)).
Proof.
  intros p d s c'.
  assert (H : customize_compiler p ∅ (CCompiler "unix" None None) s = (Returns c', s))
    by reflexivity.
  split; [exact H |].
  apply (customize_compiler_executables p ∅ (CCompiler "unix" None None) c' s s
           1%positive d); [reflexivity | reflexivity | reflexivity | exact H].
Defined.

(** * Installation directories *)

Section Directories.

Variable y : system.
Variable p : platform.

(** Outside an uninstalled POSIX build asked for the shared headers,
    [get_python_inc] neither reads nor assigns the module's globals. *)
Lemma get_python_inc_stateless (plat_specific : bool) (prefix : option string)
    (s : module_state) :
  String.eqb (os_name y) "posix" && python_build y && negb plat_specific = false ->
  exists r, forall s, get_python_inc y p plat_specific prefix s = (r, s).
Proof.
  intros H. unfold get_python_inc.
  destruct (String.eqb (os_name y) "posix"); [| repeat case_match; by eexists].
  destruct (python_build y); [| by eexists].
  destruct plat_specific; [| done].
  unfold and_then, stateless. cbn [fst snd].
  destruct (_ ← os_path_abspath y (sys_executable y); _); by eexists.
Qed.

(** X16.  [get_config_h_filename] never initialises the configuration
    variables: it leaves the module as it finds it, and what it returns or
    raises does not depend on the state of the module. *)
Theorem get_config_h_filename_keeps_state (s s' : module_state) :
  (get_config_h_filename y p s).2 = s /\
  (get_config_h_filename y p s).1 = (get_config_h_filename y p s').1.
Proof.
  assert (H : exists r, forall s, get_config_h_filename y p s = (r, s)).
  { unfold get_config_h_filename.
    destruct (python_build y) eqn:Hbuild.
    - destruct (String.eqb (os_name y) "nt");
        unfold and_then, stateless; cbn [fst snd].
      + destruct (os_path_join y _ ["PC"]); by eexists.
      + by eexists.
    - destruct (get_python_inc_stateless true None s) as [r Hr].
      { rewrite Hbuild. by rewrite andb_false_r. }
      destruct r; eexists; intros s0; unfold and_then, stateless;
        rewrite Hr; reflexivity. }
  destruct H as [r Hr]. by rewrite !Hr.
Qed.

(** X17.  In an uninstalled build on POSIX, [get_python_inc] does not use
    its argument [prefix]: a prefix that is supplied changes neither the
    result nor the effect on the module. *)
Theorem get_python_inc_build_ignores_prefix (plat_specific : bool)
    (prefix : option string) (s : module_state) :
  os_name y = "posix" ->
  python_build y = true ->
  get_python_inc y p plat_specific prefix s
  = get_python_inc y p plat_specific None s.
Proof.
  intros Hos Hbuild. unfold get_python_inc. by rewrite Hos, Hbuild.
Qed.

(** X18.  [get_python_lib] ignores [plat_specific] when a prefix is
    supplied, and when the two prefixes of the installation are the
    same. *)
Theorem get_python_lib_plat_specific (a b standard_lib : bool)
    (prefix : option string) :
  is_Some prefix \/ EXEC_PREFIX p = PREFIX p ->
  get_python_lib y p a standard_lib prefix
  = get_python_lib y p b standard_lib prefix.
Proof.
  intros H.
  assert (Hp : prefix_or_default p a prefix = prefix_or_default p b prefix).
  { destruct prefix as [x|]; [done |].
    destruct H as [[x [=]] | H]. unfold prefix_or_default. rewrite H.
    by destruct a, b, (String.eqb (PREFIX p) ""). }
  unfold get_python_lib. by rewrite Hp.
Qed.

(** X19.  With a prefix supplied, [get_python_inc] ignores [plat_specific]
    and the state of the module, except in an uninstalled build on
    POSIX. *)
Theorem get_python_inc_explicit_prefix (a b : bool) (prefix : string)
    (s : module_state) :
  String.eqb (os_name y) "posix" && python_build y = false ->
  get_python_inc y p a (Some prefix) s = get_python_inc y p b (Some prefix) s /\
  (get_python_inc y p a (Some prefix) s).2 = s.
Proof.
  intros H. unfold get_python_inc.
  destruct (String.eqb (os_name y) "posix"); [| by repeat case_match].
  by destruct (python_build y).
Qed.

(** X20.  The version is compared as a string: on NT, for every version
    that begins with the digit 1, the directory of the site additions is
    the prefix itself. *)
Theorem get_python_lib_nt_version_1 (rest : string) (plat_specific : bool)
    (prefix : option string) :
  os_name y = "nt" ->
  sys_version y = String "1" rest ->
  get_python_lib y p plat_specific false prefix
  = Returns (prefix_or_default p plat_specific prefix).
Proof.
  intros Hos Hv. unfold get_python_lib, get_python_version.
  by rewrite Hos, Hv.
Qed.

(** X21.  On a platform that is none of [posix], [nt] and [os2], with an
    installed Python, both file names end in [DistutilsPlatformError]: the
    one of the Makefile with the message about the library, the one of
    [pyconfig.h] with the message about the header files. *)
Theorem unknown_platform_file_names (s : module_state) :
  os_name y <> "posix" -> os_name y <> "nt" -> os_name y <> "os2" ->
  python_build y = false ->
  get_makefile_filename y p
  = Raises (DistutilsPlatformError
      (("I don't know where Python installs its library on platform '"
        +:+ os_name y) +:+ "'")) /\
  get_config_h_filename y p s
  = (Raises (DistutilsPlatformError
       (("I don't know where Python installs its C header files on platform '"
         +:+ os_name y) +:+ "'")), s).
Proof.
  intros H1 H2 H3 Hbuild.
  apply String.eqb_neq in H1, H2, H3.
  unfold get_makefile_filename, get_config_h_filename, get_python_lib,
    get_python_inc.
  by rewrite Hbuild, H1, H2, H3.
Qed.

Lemma without_dots_no_dot (v : string) :
  all_chars (fun c => negb (Ascii.eqb c ".")) (without_dots v) = true.
Proof.
  induction v as [|c v IH]; [done |]. simpl.
  destruct (Ascii.eqb c ".") eqn:Hc; [done |]. simpl. by rewrite Hc.
Qed.

Lemma without_dots_length (v : string) :
  String.length (without_dots v) <= String.length v.
Proof.
  induction v as [|c v IH]; [done |]. simpl.
  destruct (Ascii.eqb c "."); simpl; lia.
Qed.

Lemma substring_length_le (n : nat) (v : string) :
  String.length (substring 0 n v) <= n.
Proof.
  revert v. induction n as [|n IH]; intros [|c v]; simpl; try lia.
  specialize (IH v). lia.
Qed.

(** X22.  On NT, a run of [_init_nt] that returns has built a new
    dictionary, at an address that no older dictionary has, and has changed
    nothing else.  The dictionary holds the seven names [LIBDEST],
    [BINLIBDEST], [INCLUDEPY], [SO], [EXE], [VERSION] and [BINDIR] and no
    other; [VERSION] is a string of three characters at most, none of them a
    dot. *)
Theorem init_nt_new_dictionary (s s' : module_state) :
  os_name y = "nt" ->
  _init_nt y p s = (Returns (), s') ->
  exists address g version,
    heap s !! address = None /\
    s' = ModuleState (Some address) (<[address := g]> (heap s)) (init_runs s) /\
    dom g = list_to_set ["LIBDEST"; "BINLIBDEST"; "INCLUDEPY"; "SO"; "EXE";
                         "VERSION"; "BINDIR"] /\
    g !! "SO" = Some (VStr ".pyd") /\ g !! "EXE" = Some (VStr ".exe") /\
    g !! "VERSION" = Some (VStr version) /\
    all_chars (fun c => negb (Ascii.eqb c ".")) version = true /\
    String.length version <= 3.
Proof.
  intros Hos.
  destruct (get_python_inc_stateless false None s) as [r Hr].
  { by rewrite Hos. }
  unfold _init_nt, and_then, stateless. cbn [fst snd].
  destruct (get_python_lib y p false true None) as [libdest| |]; [| done | done].
  destruct (get_python_lib y p true true None) as [binlibdest| |]; [| done | done].
  rewrite Hr. cbn [fst snd].
  destruct r as [includepy| |]; [| done | done].
  destruct (_ ← os_path_abspath y (sys_executable y); _) as [bindir| |];
    [| done | done].
  unfold assign_config_vars. intros [= <-].
  eexists _, _, _. split; [| split; [reflexivity |]].
  { apply not_elem_of_dom, is_fresh. }
  split; [by rewrite !dom_insert_L, dom_empty_L; set_solver |].
  split; [reflexivity |]. split; [reflexivity |]. split; [reflexivity |].
  split; [apply without_dots_no_dot |].
  pose proof (without_dots_length (get_python_version y)).
  pose proof (substring_length_le 3 (sys_version y)).
  unfold get_python_version in *. lia.
Qed.

(** X23.  [_init_os2] builds the dictionary of [_init_nt] without [VERSION]
    and [BINDIR]: where a run of [_init_nt] returns, having put the
    dictionary [g] at an address, the run of [_init_os2] from the same state
    returns too, having put [g] without the two names at that address. *)
Theorem init_os2_like_init_nt (s s' : module_state) (address : positive)
    (g : gmap string value) :
  _init_nt y p s = (Returns (), s') ->
  _config_vars s' = Some address ->
  heap s' !! address = Some g ->
  _init_os2 y p s
  = (Returns (),
     ModuleState (Some address)
       (<[address := delete "BINDIR" (delete "VERSION" g)]> (heap s'))
       (init_runs s')).
Proof.
  unfold _init_nt, _init_os2, and_then, stateless. cbn [fst snd].
  destruct (get_python_lib y p false true None) as [libdest| |]; [| done | done].
  destruct (get_python_lib y p true true None) as [binlibdest| |]; [| done | done].
  destruct (get_python_inc y p false None s) as [[includepy| |] s1];
    cbn [fst snd]; [| done | done].
  destruct (_ ← os_path_abspath y (sys_executable y); _) as [bindir| |];
    [| done | done].
  unfold assign_config_vars. intros [= <-]. cbn [_config_vars heap init_runs].
  intros [= <-]. rewrite lookup_insert_eq. intros [= <-].
  rewrite insert_insert_eq. reflexivity.
Qed.

(** X24.  In an uninstalled build on POSIX, a call of [get_python_inc] for
    the shared headers that returns has initialised the configuration
    variables: it leaves the module in the state that [get_config_vars()]
    leaves, the global is set, and the next [get_config_vars()] returns
    that dictionary without a change. *)
Theorem get_python_inc_initialises (prefix : option string)
    (s s' : module_state) (dir : string) :
  os_name y = "posix" ->
  python_build y = true ->
  get_python_inc y p false prefix s = (Returns dir, s') ->
  s' = (get_config_vars p [] s).2 /\
  exists address, _config_vars s' = Some address /\
    get_config_vars p [] s' = (Returns (TheDict address), s').
Proof.
  intros Hos Hbuild. unfold get_python_inc. rewrite Hos, Hbuild.
  cbn [String.eqb Ascii.eqb Bool.eqb]. unfold and_then, stateless. cbn [fst snd].
  destruct (_ ← os_path_abspath y (sys_executable y); _) as [base| |];
    [| done | done].
  unfold get_config_var.
  destruct (get_config_vars p [] s) as [[[address|vals]|e|] s1] eqn:Hcall;
    cbn [fst snd]; try done.
  intros [= _ <-].
  apply get_config_vars_returned in Hcall as [Hset _].
  split; [done |]. exists address. split; [done |].
  by apply get_config_vars_set.
Qed.

End Directories.

Lemma get_python_inc_build_ignores_prefix_witness :
  let join := fun (a : option value) (ps : list string) =>
    match a with
    | Some (VStr x) => Returns (foldl (fun acc b => (acc +:+ "/") +:+ b) x ps)
    | _ => Raises TypeError
    end in
  let y := System "posix" "3.2 (r32:88445)" "/build/python" "/build" true ""
             join Returns (fun _ => Returns "/build") Returns in
  let p := Platform "/usr" "/usr" (fun _ => None) (fun _ g => (g, None)) in
  let s := ModuleState None ∅ 0 in
  get_python_inc y p true (Some "/opt") s = get_python_inc y p true None s.
Proof.
  intros join y p s.
  apply (get_python_inc_build_ignores_prefix y p true (Some "/opt") s);
    reflexivity.
Defined.

Lemma get_python_lib_plat_specific_witness :
  let join := fun (a : option value) (ps : list string) =>
    match a with
    | Some (VStr x) => Returns (foldl (fun acc b => (acc +:+ "/") +:+ b) x ps)
    | _ => Raises TypeError
    end in
  let y := System "posix" "3.2 (r32:88445)" "/usr/bin/python3" "/usr/bin" false "m"
             join Returns (fun _ => Returns "/usr/bin") Returns in
  let p := Platform "/usr" "/usr/local" (fun _ => None) (fun _ g => (g, None)) in
  get_python_lib y p true false (Some "/opt")
  = get_python_lib y p false false (Some "/opt").
Proof.
  intros join y p.
  apply (get_python_lib_plat_specific y p true false false (Some "/opt")).
  left. by exists "/opt".
Defined.

Lemma get_python_inc_explicit_prefix_witness :
  let join := fun (a : option value) (ps : list string) =>
    match a with
    | Some (VStr x) => Returns (foldl (fun acc b => (acc +:+ "/") +:+ b) x ps)
    | _ => Raises TypeError
    end in
  let y := System "posix" "3.2 (r32:88445)" "/usr/bin/python3" "/usr/bin" false "m"
             join Returns (fun _ => Returns "/usr/bin") Returns in
  let p := Platform "/usr" "/usr/local" (fun _ => None) (fun _ g => (g, None)) in
  let s := ModuleState None ∅ 0 in
  get_python_inc y p true (Some "/opt") s = get_python_inc y p false (Some "/opt") s /\
  (get_python_inc y p true (Some "/opt") s).2 = s.
Proof.
  intros join y p s.
  apply (get_python_inc_explicit_prefix y p true false "/opt" s). reflexivity.
Defined.

Lemma get_python_lib_nt_version_1_witness :
  let join := fun (a : option value) (ps : list string) =>
    match a with
    | Some (VStr x) => Returns (foldl (fun acc b => (acc +:+ "\") +:+ b) x ps)
    | _ => Raises TypeError
    end in
  let y := System "nt" "10.0 (default)" "C:\Python\python.exe" "C:\Python" false ""
             join Returns (fun _ => Returns "C:\Python") Returns in
  let p := Platform "C:\Python" "C:\Python" (fun _ => None) (fun _ g => (g, None)) in
  get_python_lib y p true false None = Returns "C:\Python".
Proof.
  intros join y p.
  apply (get_python_lib_nt_version_1 y p "0.0 (default)" true None); reflexivity.
Defined.

Lemma unknown_platform_file_names_witness :
  let join := fun (a : option value) (ps : list string) =>
    match a with
    | Some (VStr x) => Returns (foldl (fun acc b => (acc +:+ ".") +:+ b) x ps)
    | _ => Raises TypeError
    end in
  let y := System "riscos" "3.2 (r32:88445)" "python3" "" false ""
             join Returns (fun _ => Returns "") Returns in
  let p := Platform "." "." (fun _ => None) (fun _ g => (g, None)) in
  let s := ModuleState None ∅ 0 in
  get_makefile_filename y p
  = Raises (DistutilsPlatformError
      "I don't know where Python installs its library on platform 'riscos'") /\
  get_config_h_filename y p s
  = (Raises (DistutilsPlatformError
       "I don't know where Python installs its C header files on platform 'riscos'"),
     s).
Proof.
  intros join y p s.
  apply (unknown_platform_file_names y p s); [done | done | done | reflexivity].
Defined.

Lemma init_nt_new_dictionary_witness :
  let join := fun (a : option value) (ps : list string) =>
    match a with
    | Some (VStr x) => Returns (foldl (fun acc b => (acc +:+ "\") +:+ b) x ps)
    | _ => Raises TypeError
    end in
  let y := System "nt" "3.2 (r32:88445)" "C:\Python\python.exe" "C:\Python" false ""
             join Returns (fun _ => Returns "C:\Python") Returns in
  let p := Platform "C:\Python" "C:\Python" (fun _ => None) (fun _ g => (g, None)) in
  let s := ModuleState None ∅ 0 in
  let g : gmap string value :=
    {[ "LIBDEST" := VStr "C:\Python\Lib"; "BINLIBDEST" := VStr "C:\Python\Lib";
       "INCLUDEPY" := VStr "C:\Python\include"; "SO" := VStr ".pyd";
       "EXE" := VStr ".exe"; "VERSION" := VStr "32"; "BINDIR" := VStr "C:\Python" ]} in
  let s' := ModuleState (Some 1%positive) {[ 1%positive := g ]} 0 in
  _init_nt y p s = (Returns (), s') /\
  exists address g version,
    heap s !! address = None /\
    s' = ModuleState (Some address) (<[address := g]> (heap s)) (init_runs s) /\
    dom g = list_to_set ["LIBDEST"; "BINLIBDEST"; "INCLUDEPY"; "SO"; "EXE";
                         "VERSION"; "BINDIR"] /\
    g !! "SO" = Some (VStr ".pyd") /\ g !! "EXE" = Some (VStr ".exe") /\
    g !! "VERSION" = Some (VStr version) /\
    all_chars (fun c => negb (Ascii.eqb c ".")) version = true /\
    String.length version <= 3.
Proof.
  intros join y p s g s'.
  assert (H : _init_nt y p s = (Returns (), s')) by reflexivity.
  split; [exact H |].
  apply (init_nt_new_dictionary y p s s'); [reflexivity | exact H].
Defined.

Lemma init_os2_like_init_nt_witness :
  let join := fun (a : option value) (ps : list string) =>
    match a with
    | Some (VStr x) => Returns (foldl (fun acc b => (acc +:+ "\") +:+ b) x ps)
    | _ => Raises TypeError
    end in
  let y := System "os2" "3.2 (r32:88445)" "C:\Python\python.exe" "C:\Python" false ""
             join Returns (fun _ => Returns "C:\Python") Returns in
  let p := Platform "C:\Python" "C:\Python" (fun _ => None) (fun _ g => (g, None)) in
  let s := ModuleState None ∅ 0 in
  let g : gmap string value :=
    {[ "LIBDEST" := VStr "C:\Python\Lib"; "BINLIBDEST" := VStr "C:\Python\Lib";
       "INCLUDEPY" := VStr "C:\Python\Include"; "SO" := VStr ".pyd";
       "EXE" := VStr ".exe"; "VERSION" := VStr "32"; "BINDIR" := VStr "C:\Python" ]} in
  let s' := ModuleState (Some 1%positive) {[ 1%positive := g ]} 0 in
  _init_nt y p s = (Returns (), s') /\
  _init_os2 y p s
  = (Returns (),
     ModuleState (Some 1%positive)
       (<[1%positive := delete "BINDIR" (delete "VERSION" g)]> (heap s'))
       (init_runs s')).
Proof.
  intros join y p s g s'.
  assert (H : _init_nt y p s = (Returns (), s')) by reflexivity.
  split; [exact H |].
  apply (init_os2_like_init_nt y p s s' 1%positive g);
    [exact H | reflexivity | reflexivity].
Defined.

Lemma get_python_inc_initialises_witness :
  let join := fun (a : option value) (ps : list string) =>
    match a with
    | Some (VStr x) => Returns (foldl (fun acc b => (acc +:+ "/") +:+ b) x ps)
    | _ => Raises TypeError
    end in
  let y := System "posix" "3.2 (r32:88445)" "/build/python" "/build" true ""
             join Returns (fun _ => Returns "/build") Returns in
  let p := Platform "/usr" "/usr"
             (fun _ => Some (Returns {[ "srcdir" := VStr "/src" ]}))
             (fun _ g => (g, None)) in
  let s := ModuleState None ∅ 0 in
  let d : gmap string value :=
    {[ "srcdir" := VStr "/src"; "prefix" := VStr "/usr";
       "exec_prefix" := VStr "/usr" ]} in
  let s' := ModuleState (Some 1%positive) {[ 1%positive := d ]} 1 in
  get_python_inc y p false None s = (Returns "/src/Include", s') /\
  s' = (get_config_vars p [] s).2 /\
  exists address, _config_vars s' = Some address /\
    get_config_vars p [] s' = (Returns (TheDict address), s').
Proof.
  intros join y p s d s'.
  assert (H : get_python_inc y p false None s = (Returns "/src/Include", s'))
    by reflexivity.
  split; [exact H |].
  apply (get_python_inc_initialises y p None s s' "/src/Include");
    [reflexivity | reflexivity | exact H].
Defined.

(** * [parse_config_h] with a dictionary *)

Lemma parse_config_h_line_union (g1 g2 : gmap string value) (line : string) :
  parse_config_h_line (g1 ∪ g2) line = parse_config_h_line g1 line ∪ g2.
Proof.
  unfold parse_config_h_line.
  destruct (define_rx_match line) as [[n v]|]; [by rewrite insert_union_l |].
  destruct (undef_rx_match line); [by rewrite insert_union_l | done].
Qed.

Lemma parse_config_h_loop_union (fp : list string) (g1 g2 : gmap string value) :
  parse_config_h_loop fp (g1 ∪ g2) = parse_config_h_loop fp g1 ∪ g2.
Proof.
  revert g1. induction fp as [|line fp IH]; intros g1; [done |]. simpl.
  destruct (String.eqb line ""); [done |].
  by rewrite parse_config_h_line_union, IH.
Qed.

(** X25.  What [parse_config_h] makes of a dictionary that it is given: the
    entries that the file gives to a new dictionary, and under every other
    name the entry that the dictionary had.  No entry is removed. *)
Theorem parse_config_h_given_dictionary (fp : list string)
    (g : gmap string value) (k : string) :
  parse_config_h fp (Some g) = parse_config_h fp None ∪ g /\
  parse_config_h fp (Some g) !! k
  = match parse_config_h fp None !! k with
    | Some v => Some v
    | None => g !! k
    end.
Proof.
  assert (H : parse_config_h fp (Some g) = parse_config_h fp None ∪ g).
  { unfold parse_config_h. simpl.
    by rewrite <- parse_config_h_loop_union, (left_id_L ∅ (∪)). }
  split; [done |]. rewrite H.
  destruct (parse_config_h fp None !! k) as [v|] eqn:Hk.
  - by apply lookup_union_Some_l.
  - by rewrite lookup_union_r.
Qed.

(** * [expand_makefile_vars] and a name that the mapping lacks *)



Lemma opens_inert t post :
  dollars_inert (String "$" t) = true -> opens (t +:+ post) = false.
Proof.
  induction t as [|b r IH]; [done |]. intros H.
  apply andb_prop in H as [Hb Hr]. simpl.
  destruct (Ascii.eqb b "$") eqn:E.
  - apply Ascii.eqb_eq in E as ->. by apply IH.
  - by destruct (is_opening b).
Qed.

Lemma live_dollars_inert item post :
  dollars_inert item = true -> live_dollars (item +:+ post) = live_dollars post.
Proof.
  induction item as [|a r IH]; [done |]. intros H.
  pose proof H as H'. apply andb_prop in H' as [_ Hr]. simpl.
  rewrite (IH Hr). destruct (Ascii.eqb a "$") eqn:E; [| done].
  apply Ascii.eqb_eq in E as ->. by rewrite (opens_inert r post H).
Qed.

Lemma live_dollars_plain body post :
  count_dollar body = 0 -> live_dollars (body +:+ post) = live_dollars post.
Proof.
  induction body as [|a r IH]; [done |]. simpl.
  destruct (Ascii.eqb a "$"); [done |]. intros H. by rewrite IH.
Qed.

Lemma live_dollars_reference o c n post :
  is_bracket_pair o c = true -> is_reference_name n = true ->
  opens (reference o c n +:+ post) = true /\
  live_dollars (reference o c n +:+ post) = S (live_dollars post).
Proof.
  intros Hb Hn.
  assert (Hrun : live_dollars (n +:+ String c post) = live_dollars post).
  { rewrite live_dollars_plain
      by by apply count_dollar_run, reference_name_run.
    by destruct (bracket_pair_cases o c Hb) as [[-> ->] | [-> ->]]. }
  rewrite reference_app.
  destruct (bracket_pair_cases o c Hb) as [[-> ->] | [-> ->]];
    cbn [opens live_dollars Ascii.eqb Bool.eqb is_opening andb orb];
    by rewrite Hrun.
Qed.

(** What stands before the place of a substitution keeps the order of the
    two counts. *)
Lemma live_dollars_before pre x y :
  opens y = true -> live_dollars x < live_dollars y ->
  (opens (pre +:+ x) = true -> opens (pre +:+ y) = true) /\
  live_dollars (pre +:+ x) < live_dollars (pre +:+ y).
Proof.
  intros Hy Hlt. induction pre as [|a r [IHo IHl]]; [done |]. simpl.
  destruct (Ascii.eqb a "$"); cbn [andb]; [| split; [done | lia]].
  split; [done |].
  destruct (opens (r +:+ x)); [rewrite IHo by done; lia |].
  destruct (opens (r +:+ y)); lia.
Qed.


Lemma live_dollars_substitute s m item :
  find_reference s = Some m -> dollars_inert item = true ->
  live_dollars (m_pre m +:+ item +:+ m_post m) < live_dollars s.
Proof.
  intros Hm Hitem.
  apply find_reference_Some in Hm as (o & c & Hb & Hn & ->).
  destruct (live_dollars_reference o c (m_group1 m) (m_post m) Hb Hn) as [Ho Hl].
  apply live_dollars_before; [done |].
  rewrite Hl, live_dollars_inert by done. lia.
Qed.




Lemma expand_makefile_vars_step vars fuel s m item :
  find_reference s = Some m -> vars !! m_group1 m = Some (VStr item) ->
  expand_makefile_vars (S fuel) s vars
  = expand_makefile_vars fuel (m_pre m +:+ item +:+ m_post m) vars.
Proof. intros Hm Hitem. simpl. by rewrite Hm, Hitem. Qed.

Lemma find_reference_parens pre s m :
  contains_dollar pre = false -> search "(" ")" s = Some m ->
  find_reference (pre +:+ s)
  = Some (MatchObject (pre +:+ m_pre m) (m_group1 m) (m_post m)).
Proof.
  intros Hpre Hm. unfold find_reference, _findvar1_rx_search.
  by rewrite search_prefix, Hm.
Qed.



(** The same with a text that holds no dollar before a bracket, but ends
    with dollars: [(XX)(XX)$$], which [parse_makefile] returns for [XX]
    from the line [XX = (XX)(XX)$$$$]. *)
Lemma expand_makefile_vars_dollars_loop (vars : gmap string value) :
  vars !! "XX" = Some (VStr "(XX)(XX)$$") ->
  forall fuel pre post, contains_dollar pre = false ->
    expand_makefile_vars fuel (pre +:+ "$$(XX)" +:+ post) vars = OutOfFuel /\
    expand_makefile_vars fuel (pre +:+ "$(XX)(XX)" +:+ post) vars = OutOfFuel.
Proof.
  intros Hxx.
  assert (H1 : forall pre post, contains_dollar pre = false ->
            find_reference (pre +:+ "$$(XX)" +:+ post)
            = Some (MatchObject (pre +:+ "$") "XX" post)).
  { intros pre post Hpre.
    by apply (find_reference_parens pre _ (MatchObject "$" "XX" post)). }
  assert (H2 : forall pre post, contains_dollar pre = false ->
            find_reference (pre +:+ "$(XX)(XX)" +:+ post)
            = Some (MatchObject (pre +:+ "") "XX" ("(XX)" +:+ post))).
  { intros pre post Hpre.
    by apply (find_reference_parens pre _ (MatchObject "" "XX" ("(XX)" +:+ post))). }
  induction fuel as [|fuel IH]; intros pre post Hpre.
  - cbn [expand_makefile_vars]. by rewrite H1, H2.
  - rewrite (expand_makefile_vars_step vars fuel _ _ _ (H1 pre post Hpre) Hxx),
      (expand_makefile_vars_step vars fuel _ _ _ (H2 pre post Hpre) Hxx).
    cbn [m_pre m_post]. split.
    + destruct (IH pre ("$$" +:+ post) Hpre) as [_ H].
      by rewrite str_app_assoc.
    + destruct (IH (pre +:+ "(XX)(XX)") post) as [H _].
      { by rewrite contains_dollar_app, Hpre. }
      by rewrite str_app_nil_r, !str_app_assoc in *.
Qed.

Example trailing_dollars_never_raise :
  let vars : gmap string value := {[ "XX" := VStr "(XX)(XX)$$" ]} in
  parse_makefile dict_keys ∅ 0 ["XX = (XX)(XX)$$$$"] None = Returns vars /\
  forall fuel, expand_makefile_vars fuel "$(XX)$(XX)$(ZZ)" vars = OutOfFuel.
Proof.
  intros vars. split; [reflexivity |].
  intros [|[|fuel]]; [reflexivity | reflexivity |].
  change (expand_makefile_vars (S (S fuel)) "$(XX)$(XX)$(ZZ)" vars)
    with (expand_makefile_vars fuel
            ("(XX)(XX)" +:+ "$$(XX)" +:+ "(XX)$$$(ZZ)") vars).
  by apply (expand_makefile_vars_dollars_loop vars).
Qed.

(** * The interpolation loop *)

(** ** Literal dollars *)

Lemma dollars_literal_inert s : dollars_literal s = true -> dollars_inert s = true.
Proof.
  induction s as [|a r IH]; [done |]. simpl. intros H.
  apply andb_prop in H as [Ha Hr]. rewrite (IH Hr), andb_true_r.
  destruct (Ascii.eqb a "$"); [| done]. destruct r as [|b r']; [done |].
  by apply andb_prop in Ha as [-> _].
Qed.

Lemma no_dollar_literal s : contains_dollar s = false -> dollars_literal s = true.
Proof.
  induction s as [|a r IH]; [done |]. simpl. intros H.
  apply orb_false_elim in H as [-> Hr]. by rewrite IH.
Qed.

Lemma dollars_literal_app s t :
  dollars_literal s = true -> dollars_literal t = true ->
  dollars_literal (s +:+ t) = true.
Proof.
  intros Hs Ht. induction s as [|a r IH]; [done |]. simpl in *.
  apply andb_prop in Hs as [Ha Hr]. rewrite (IH Hr), andb_true_r.
  destruct (Ascii.eqb a "$"); [| done]. by destruct r.
Qed.

Lemma dollars_literal_drop_while p s :
  dollars_literal s = true -> dollars_literal (drop_while p s) = true.
Proof.
  induction s as [|a r IH]; [done |]. intros H. simpl.
  destruct (p a); [| done]. apply IH. simpl in H. by apply andb_prop in H as [_ Hr].
Qed.

Lemma rstrip_head s c r : rstrip s = String c r -> exists r', s = String c r'.
Proof.
  destruct s as [|a s']; [done |]. simpl.
  destruct (rstrip s'); [destruct (is_space a) |]; intros [= <- <-]; by eexists.
Qed.

Lemma rstrip_blank s : rstrip s = "" -> head_in is_space s = true \/ s = "".
Proof.
  destruct s as [|a s']; [by right |]. simpl.
  destruct (rstrip s'); [| done]. destruct (is_space a); [by left | done].
Qed.

Lemma dollars_literal_rstrip s :
  dollars_literal s = true -> dollars_literal (rstrip s) = true.
Proof.
  induction s as [|a r IH]; [done |]. intros H. pose proof H as H'.
  simpl in H'. apply andb_prop in H' as [Ha Hr]. specialize (IH Hr). simpl.
  destruct (rstrip r) as [|c r'] eqn:E.
  - destruct (is_space a); [done |]. simpl. rewrite andb_true_r.
    destruct (Ascii.eqb a "$"); [| done].
    destruct r as [|b r'']; [done |].
    apply andb_prop in Ha as [_ Hb].
    apply rstrip_blank in E as [E | E]; [| done]. simpl in E. by rewrite E in Hb.
  - change (dollars_literal (String a (String c r')))
      with ((if Ascii.eqb a "$" then negb (is_opening c) && negb (is_space c)
             else true) && dollars_literal (String c r')).
    rewrite IH, andb_true_r. destruct (Ascii.eqb a "$"); [| done].
    apply rstrip_head in E as [r'' ->]. done.
Qed.

Lemma dollars_literal_strip s :
  dollars_literal s = true -> dollars_literal (strip s) = true.
Proof.
  intros H. unfold strip, lstrip.
  by apply dollars_literal_rstrip, dollars_literal_drop_while.
Qed.

Lemma digit_not_dollar c : is_digit c = true -> Ascii.eqb c "$" = false.
Proof. by destruct c as [[] [] [] [] [] [] [] []]. Qed.

Lemma count_dollar_digits s : all_chars is_digit s = true -> count_dollar s = 0.
Proof.
  induction s as [|c r IH]; [done |]. simpl. intros H.
  apply andb_prop in H as [Hc Hr]. by rewrite (digit_not_dollar c Hc), IH.
Qed.

Lemma str_of_int_literal z : dollars_literal (str_of_int z) = true.
Proof.
  apply no_dollar_literal, contains_dollar_count.
  unfold str_of_int. destruct (Z.to_int z); simpl;
    apply count_dollar_digits, string_of_uint_digits.
Qed.

(** No reference begins in a text whose dollars are literal. *)
Lemma reference_at_inert o c a r s :
  is_opening o = true -> dollars_inert (String a r) = true ->
  reference_at o c (String a (r +:+ s)) = None.
Proof.
  intros Ho H. destruct (Ascii.eqb a "$") eqn:Ea;
    [| by apply reference_at_not_dollar].
  simpl in H. rewrite Ea in H. destruct r as [|b r']; [done |].
  apply andb_prop in H as [Hb _]. simpl. rewrite Ea.
  destruct (r' +:+ s) as [|a' t]; [done |].
  destruct (Ascii.eqb b o) eqn:Eb; [| done].
  apply Ascii.eqb_eq in Eb as ->. by rewrite Ho in Hb.
Qed.

Lemma search_inert_prefix o c pre s :
  is_opening o = true -> dollars_inert pre = true ->
  search o c (pre +:+ s)
  = match search o c s with
    | Some m => Some (MatchObject (pre +:+ m_pre m) (m_group1 m) (m_post m))
    | None => None
    end.
Proof.
  intros Ho. induction pre as [|a r IH]; intros H.
  - simpl. by destruct (search o c s) as [[]|].
  - change (String a r +:+ s) with (String a (r +:+ s)).
    rewrite search_unfold, (reference_at_inert o c a r s Ho H).
    pose proof H as H'. simpl in H'. apply andb_prop in H' as [_ Hr].
    rewrite (IH Hr). by destruct (search o c s).
Qed.

Lemma find_reference_prefix pre s :
  dollars_literal pre = true ->
  find_reference (pre +:+ s)
  = match find_reference s with
    | Some m => Some (MatchObject (pre +:+ m_pre m) (m_group1 m) (m_post m))
    | None => None
    end.
Proof.
  intros Hpre. apply dollars_literal_inert in Hpre.
  unfold find_reference, _findvar1_rx_search, _findvar2_rx_search.
  rewrite !search_inert_prefix by done.
  destruct (search "(" ")" s); [done |]. by destruct (search "{" "}" s).
Qed.

(** ** The weight of the pending variables *)

Lemma weight_delete (pending : gmap string string) name text :
  pending !! name = Some text ->
  weight pending = S (live_dollars text) + weight (delete name pending).
Proof.
  intros H. unfold weight.
  by rewrite <- (map_to_list_delete pending name text H).
Qed.

Lemma weight_insert (pending : gmap string string) name text text' :
  pending !! name = Some text ->
  weight (<[name := text']> pending) + live_dollars text
  = weight pending + live_dollars text'.
Proof.
  intros H. rewrite (weight_delete pending name text H).
  rewrite <- (insert_delete_eq pending name text'). unfold weight at 1.
  rewrite map_to_list_insert by apply lookup_delete_eq. simpl.
  fold (weight (delete name pending)). lia.
Qed.

Lemma weight_empty_inv (pending : gmap string string) :
  weight pending = 0 -> pending = ∅.
Proof.
  unfold weight. intros H. apply map_to_list_empty_iff.
  destruct (map_to_list pending); [done | simpl in H; lia].
Qed.

(** ** Values with literal dollars *)

Lemma values_literal_spec d :
  values_literal d = true <->
  forall k t, d !! k = Some (VStr t) -> dollars_literal t = true.
Proof.
  unfold values_literal. rewrite forallb_forall. split.
  - intros Hall k t Hk.
    by apply elem_of_map_to_list, list_elem_of_In, Hall in Hk.
  - intros Hall [k [z|t]] Hin; [done |]. simpl.
    apply list_elem_of_In, elem_of_map_to_list in Hin. by apply (Hall k t).
Qed.

Lemma str_literal d k v :
  values_literal d = true -> d !! k = Some v -> dollars_literal (str v) = true.
Proof.
  intros Hd Hk. destruct v as [z|t]; simpl.
  - apply str_of_int_literal.
  - by eapply values_literal_spec.
Qed.

Lemma values_literal_insert d k v :
  values_literal d = true ->
  (forall t, v = VStr t -> dollars_literal t = true) ->
  values_literal (<[k := v]> d) = true.
Proof.
  rewrite !values_literal_spec. intros Hd Hv k' t Hk'.
  apply lookup_insert_Some in Hk' as [[_ ->] | [_ Hk']]; [by apply Hv | eauto].
Qed.

Lemma int_or_literal s t u :
  dollars_literal t = true -> int_or s (VStr t) = VStr u ->
  dollars_literal u = true.
Proof. unfold int_or. destruct (int_of_str s); [done |]. by intros ? [= <-]. Qed.

(** ** Values in order *)

Section Termination.

Variable keys : gmap string string -> list string.
Variable environ : gmap string string.
Variable rank : string -> nat.

(** A sweep takes every pending variable, once, in some order. *)
Hypothesis keys_permutation : forall d, keys d ≡ₚ dict_keys d.

(** The dollars of the environment are literal. *)
Hypothesis environ_literal :
  forall n item, environ !! n = Some item -> dollars_literal item = true.

Lemma dropped_test_complete fuel text : dropped text -> dropped_test fuel text = true.
Proof.
  intros H. revert fuel.
  induction H as [text Hnone | text m Hm Hpost Hrest IH]; intros fuel;
    destruct fuel; simpl; rewrite ?Hnone, ?Hm; try done.
  by rewrite Hpost, IH.
Qed.

Lemma well_ranked_ranked st : well_ranked rank environ st = true -> ranked rank environ st.
Proof.
  unfold well_ranked. rewrite forallb_forall. intros Hall name text Hname.
  apply elem_of_map_to_list, list_elem_of_In, Hall in Hname. simpl in Hname.
  revert Hname. generalize (String.length text). intros fuel. revert text.
  induction fuel as [|fuel IH]; intros text; simpl;
    destruct (find_reference text) as [m|] eqn:Hm;
    try done; try (intros _; by apply ordered_end).
  intros H. apply andb_prop in H as [H Hrest]. apply andb_prop in H as [Hpre Hdeps].
  apply (ordered_reference _ _ _ _ text m); [done | done | | by apply IH].
  intros dep [Hn Hdep] [w Hw]. rewrite forallb_forall in Hdeps.
  assert (Hin : dep ∈ awaited environ st name (m_group1 m)).
  { unfold awaited. rewrite bool_decide_eq_true_2 by done.
    destruct Hdep as [-> | (-> & Hr & Hp & He & Hd)]; [apply list_elem_of_here |].
    rewrite (bool_decide_eq_true_2 _ Hr), Hp, (bool_decide_eq_true_2 _ He).
    cbn [negb andb].
    destruct (notdone st !! m_group1 m) as [t|] eqn:Ht;
      [rewrite (dropped_test_complete _ t (Hd t eq_refl)) |];
      apply list_elem_of_further, list_elem_of_here. }
  apply list_elem_of_In, Hdeps in Hin. rewrite Hw in Hin.
  by apply Nat.ltb_lt.
Qed.

Lemma dropped_prefix pre text :
  dollars_literal pre = true -> dropped (pre +:+ text) -> dropped text.
Proof.
  intros Hpre H. inversion H as [? Hnone | ? m' Hm' Hpost Hrest]; subst;
    rewrite find_reference_prefix in * by done;
    destruct (find_reference text) as [m|] eqn:Hm; try done.
  - by apply dropped_now.
  - injection Hm' as <-. by apply (dropped_later text m).
Qed.

Lemma ordered_prefix st name pre text :
  dollars_literal pre = true ->
  ordered rank environ st name text -> ordered rank environ st name (pre +:+ text).
Proof.
  intros Hpre [text' Hnone | text' m Hm Hp Hdeps Hrest].
  - apply ordered_end. by rewrite find_reference_prefix, Hnone.
  - apply (ordered_reference _ _ _ _ _
             (MatchObject (pre +:+ m_pre m) (m_group1 m) (m_post m)));
      [by rewrite find_reference_prefix, Hm | | done | done].
    simpl. by apply dollars_literal_app.
Qed.

(** What a round does to the state, as far as the order is concerned:
    [done] loses no name, no variable becomes pending, and a variable that
    was pending and is not in [done] afterwards is dropped, then or
    later. *)
Lemma ordered_mono st st' name text :
  (forall k, is_Some (done st !! k) -> is_Some (done st' !! k)) ->
  (forall k, is_Some (notdone st' !! k) -> is_Some (notdone st !! k)) ->
  (forall n t, notdone st !! n = Some t -> done st' !! n = None ->
     (forall t', notdone st' !! n = Some t' -> dropped t') -> dropped t) ->
  ordered rank environ st name text -> ordered rank environ st' name text.
Proof.
  intros Hdone Hpending Hdropped H.
  induction H as [text Hnone | text m Hm Hp Hdeps Hrest IH];
    [by apply ordered_end |].
  apply (ordered_reference _ _ _ _ text m); try done.
  intros dep [Hn Hdep] Hw. apply Hdeps; [| by apply Hpending].
  assert (Hn' : done st !! m_group1 m = None).
  { destruct (done st !! m_group1 m) eqn:E; [| done].
    destruct (Hdone _ (mk_is_Some _ _ E)) as [w Hw']. congruence. }
  split; [done |].
  destruct Hdep as [-> | (-> & Hr & Hpre & He & Hd)]; [by left | right].
  repeat split; try done. intros t Ht. by apply (Hdropped (m_group1 m) t).
Qed.

(** ** One look-up *)

Lemma lookup_reference_item name n st item d :
  values_literal (done st) = true ->
  lookup_reference environ name n st = Returns (Some item, d) ->
  dollars_literal item = true /\ values_literal d = true /\
  (forall k, is_Some (done st !! k) -> is_Some (d !! k)).
Proof.
  intros Hplain. unfold lookup_reference.
  destruct (done st !! n) as [v|] eqn:Hn.
  { intros [= <- <-]. split; [by eapply str_literal | done]. }
  destruct (notdone st !! n); [done |].
  destruct (environ !! n) as [item'|] eqn:He.
  { intros [= <- <-]. split; [by eapply environ_literal | done]. }
  case_bool_decide.
  - destruct (is_prefixed_renamed name); [by intros [= <- <-] |].
    destruct (notdone st !! ("PY_" +:+ n)); [done |].
    destruct (done st !! ("PY_" +:+ n)) as [v|] eqn:Hpy; [| done].
    intros [= <- <-]. split; [by eapply str_literal | done].
  - intros [= <- <-]. split; [done |]. split.
    + apply values_literal_insert; [done |]. by intros t [= <-].
    + intros k Hk. destruct (decide (k = n)) as [-> | Hne].
      * by rewrite lookup_insert_eq.
      * by rewrite lookup_insert_ne.
Qed.

Lemma lookup_reference_waits name n st d :
  lookup_reference environ name n st = Returns (None, d) ->
  d = done st /\
  exists dep, awaits environ st name n dep /\ is_Some (notdone st !! dep).
Proof.
  unfold lookup_reference, awaits.
  destruct (done st !! n) as [v|] eqn:Hn; [done |].
  destruct (notdone st !! n) as [t|] eqn:Hp.
  { intros [= <-]. split; [done |]. exists n. rewrite Hp.
    split; [split; [done | by left] | by eexists]. }
  destruct (environ !! n) as [item'|] eqn:He; [done |].
  case_bool_decide; [| done].
  destruct (is_prefixed_renamed name); [done |].
  destruct (notdone st !! ("PY_" +:+ n)) as [t|] eqn:Hpy.
  - intros [= <-]. split; [done |]. exists ("PY_" +:+ n). rewrite Hpy.
    split; [| by eexists]. split; [done |]. right. by repeat split.
  - by destruct (done st !! ("PY_" +:+ n)).
Qed.

(** ** One substitution *)

Lemma substitute_literal name m item st :
  values_literal (done st) = true ->
  dollars_literal (m_pre m) = true -> dollars_literal item = true ->
  values_literal (done (substitute name m item st)) = true /\
  (forall k, is_Some (done st !! k) -> is_Some (done (substitute name m item st) !! k)).
Proof.
  intros Hplain Hpre Hitem. unfold substitute.
  destruct (contains_dollar (m_post m)) eqn:Hpost; [done |]. cbv zeta.
  assert (Hvalue : dollars_literal (m_pre m +:+ item +:+ m_post m) = true).
  { apply dollars_literal_app; [done |]. apply dollars_literal_app; [done |].
    by apply no_dollar_literal. }
  assert (H1 : values_literal
                 (<[name := int_or (m_pre m +:+ item +:+ m_post m)
                                   (VStr (strip (m_pre m +:+ item +:+ m_post m)))]>
                    (done st)) = true).
  { apply values_literal_insert; [done |]. intros t Ht.
    eapply int_or_literal; [| exact Ht]. by apply dollars_literal_strip. }
  assert (H2 : forall k, is_Some (done st !! k) ->
               is_Some (<[name := int_or (m_pre m +:+ item +:+ m_post m)
                                     (VStr (strip (m_pre m +:+ item +:+ m_post m)))]>
                          (done st) !! k)).
  { intros k Hk. destruct (decide (k = name)) as [-> | Hne].
    - by rewrite lookup_insert_eq.
    - by rewrite lookup_insert_ne. }
  destruct (is_prefixed_renamed name); [| done].
  destruct (_ !! slice_from 3 name) eqn:E; [done |]. cbn [done]. split.
  - apply values_literal_insert; [done |]. intros t Ht.
    by eapply int_or_literal.
  - intros k Hk. destruct (decide (k = slice_from 3 name)) as [-> | Hne].
    + by rewrite lookup_insert_eq.
    + rewrite lookup_insert_ne by done. by apply H2.
Qed.

Lemma substitute_pending name m item st :
  notdone (substitute name m item st)
  = if contains_dollar (m_post m)
    then <[name := m_pre m +:+ item +:+ m_post m]> (notdone st)
    else delete name (notdone st).
Proof.
  unfold substitute. destruct (contains_dollar (m_post m)); [done |]. cbv zeta.
  destruct (is_prefixed_renamed name); [| done].
  by destruct (_ !! slice_from 3 name).
Qed.

(** ** One round *)

Lemma ranked_step st st' name :
  (forall k, is_Some (done st !! k) -> is_Some (done st' !! k)) ->
  (forall k, is_Some (notdone st' !! k) -> is_Some (notdone st !! k)) ->
  (forall k t, k <> name -> notdone st' !! k = Some t -> notdone st !! k = Some t) ->
  (forall k t, k <> name -> notdone st !! k = Some t -> notdone st' !! k = Some t) ->
  (forall t, notdone st !! name = Some t -> done st' !! name = None ->
     (forall t', notdone st' !! name = Some t' -> dropped t') -> dropped t) ->
  (forall t, notdone st' !! name = Some t -> ordered rank environ st name t) ->
  ranked rank environ st -> ranked rank environ st'.
Proof.
  intros Hdone Hpending Hother Hother' Hdropped Hname Hranked k t Hk.
  apply (ordered_mono st st'); [done | done | |].
  - intros n tn Hn Hnd Hd. destruct (decide (n = name)) as [-> | Hne];
      [by apply Hdropped |].
    apply Hd. by apply Hother'.
  - destruct (decide (k = name)) as [-> | Hne]; [by apply Hname |].
    apply Hranked. by apply Hother.
Qed.

Lemma interpolate_name_Returns name st st' :
  interpolate_name environ name st = Returns st' -> is_Some (notdone st !! name).
Proof. unfold interpolate_name. by destruct (notdone st !! name). Qed.

(** A round keeps the two conditions; it makes the weight smaller, or it
    changes nothing because the variable is put off for a pending variable
    of a lower rank. *)
Lemma interpolate_name_step name st st' :
  values_literal (done st) = true -> ranked rank environ st ->
  interpolate_name environ name st = Returns st' ->
  values_literal (done st') = true /\ ranked rank environ st' /\
  (forall k, is_Some (notdone st' !! k) -> is_Some (notdone st !! k)) /\
  (weight (notdone st') < weight (notdone st) \/
   (notdone st' = notdone st /\
    exists dep, is_Some (notdone st !! dep) /\ rank dep < rank name)).
Proof.
  intros Hplain Hranked. unfold interpolate_name.
  destruct (notdone st !! name) as [text|] eqn:Hname; [| done].
  pose proof (Hranked name text Hname) as Hord.
  destruct (find_reference text) as [m|] eqn:Hm.
  - inversion Hord as [? Hnone | ? m' Hm' Hpre Hdeps Hrest]; subst;
      [congruence |].
    assert (m' = m) by congruence. subst m'.
    destruct (lookup_reference environ name (m_group1 m) st)
      as [[[item|] d]|e|] eqn:Hl; try done; simpl; intros [= <-].
    + destruct (lookup_reference_item _ _ _ _ _ Hplain Hl) as (Hitem & Hd & Hsub).
      destruct (substitute_literal name m item (State d (notdone st)) Hd Hpre Hitem)
        as [Hplain' Hsub'].
      pose proof (substitute_pending name m item (State d (notdone st))) as Hp.
      cbn [notdone done] in Hp, Hsub'.
      split; [done |].
      assert (Hdone : forall k, is_Some (done st !! k) ->
                is_Some (done (substitute name m item (State d (notdone st))) !! k))
        by auto.
      destruct (contains_dollar (m_post m)) eqn:Hpost; rewrite Hp.
      * assert (Hkeys : forall k,
                  is_Some (<[name := m_pre m +:+ item +:+ m_post m]> (notdone st) !! k) ->
                  is_Some (notdone st !! k)).
        { intros k Hk. apply lookup_insert_is_Some in Hk as [<- | [_ Hk]];
            [by eexists | done]. }
        split; [| split; [done |]].
        -- apply (ranked_step st _ name); rewrite ?Hp; try done.
           ++ intros k t Hne Hk. by rewrite lookup_insert_ne in Hk.
           ++ intros k t Hne Hk. by rewrite lookup_insert_ne.
           ++ intros t Ht _ Hdrop. rewrite Hname in Ht. injection Ht as <-.
              apply (dropped_later _ m); [done | done |].
              apply (dropped_prefix item); [done |].
              apply (dropped_prefix (m_pre m)); [done |].
              apply Hdrop. by rewrite lookup_insert_eq.
           ++ intros t Ht. rewrite lookup_insert_eq in Ht. injection Ht as <-.
              apply ordered_prefix; [done |]. by apply ordered_prefix.
        -- left. pose proof (weight_insert (notdone st) name text
                               (m_pre m +:+ item +:+ m_post m) Hname) as Hw.
           pose proof (live_dollars_substitute text m item Hm
                         (dollars_literal_inert item Hitem)).
           lia.
      * assert (Hkeys : forall k, is_Some (delete name (notdone st) !! k) ->
                  is_Some (notdone st !! k)).
        { intros k [w Hk]. apply lookup_delete_Some in Hk as [_ Hk]. by eexists. }
        split; [| split; [done |]].
        -- apply (ranked_step st _ name); rewrite ?Hp; try done.
           ++ intros k t Hne Hk. by apply lookup_delete_Some in Hk as [_ Hk].
           ++ intros k t Hne Hk. by rewrite lookup_delete_ne.
           ++ intros t Ht Hnd _. exfalso. revert Hnd.
              unfold substitute. rewrite Hpost. cbv zeta.
              destruct (is_prefixed_renamed name);
                [destruct (_ !! slice_from 3 name) eqn:E |]; cbn [done];
                rewrite ?lookup_insert_eq; try done.
              destruct (decide (slice_from 3 name = name)) as [Heq | Hne];
                [rewrite Heq; by rewrite lookup_insert_eq |].
              by rewrite lookup_insert_ne, lookup_insert_eq.
           ++ intros t Ht. by rewrite lookup_delete_eq in Ht.
        -- left. rewrite (weight_delete (notdone st) name text Hname). lia.
    + destruct (lookup_reference_waits _ _ _ _ Hl) as [-> (dep & Hdep & Hpending)].
      cbn [done notdone]. rewrite state_eta.
      split; [done |]. split; [done |]. split; [done |]. right.
      split; [done |]. exists dep. split; [done |]. by apply Hdeps.
  - intros [= <-]. cbn [done notdone].
    assert (Hkeys : forall k, is_Some (delete name (notdone st) !! k) ->
              is_Some (notdone st !! k)).
    { intros k [w Hk]. apply lookup_delete_Some in Hk as [_ Hk]. by eexists. }
    split; [done |]. split; [| split; [done |]].
    + apply (ranked_step st _ name); cbn [done notdone]; try done.
      * intros k t Hne Hk. by apply lookup_delete_Some in Hk as [_ Hk].
      * intros k t Hne Hk. by rewrite lookup_delete_ne.
      * intros t Ht _ _. rewrite Hname in Ht. injection Ht as <-.
        by apply dropped_now.
      * intros t Ht. by rewrite lookup_delete_eq in Ht.
    + left. rewrite (weight_delete (notdone st) name text Hname). lia.
Qed.

(** ** One sweep *)

Lemma sweep_cons_Returns name names st st' :
  sweep environ (name :: names) st = Returns st' ->
  exists st1, interpolate_name environ name st = Returns st1 /\
              sweep environ names st1 = Returns st'.
Proof.
  simpl. destruct (interpolate_name environ name st) as [st1| |]; try done.
  intros H. by exists st1.
Qed.

Lemma sweep_step names st st' :
  values_literal (done st) = true -> ranked rank environ st ->
  sweep environ names st = Returns st' ->
  values_literal (done st') = true /\ ranked rank environ st' /\
  (forall k, is_Some (notdone st' !! k) -> is_Some (notdone st !! k)) /\
  weight (notdone st') <= weight (notdone st).
Proof.
  revert st. induction names as [|name names IH]; intros st Hplain Hranked Hsweep.
  - by injection Hsweep as <-.
  - apply sweep_cons_Returns in Hsweep as (st1 & Hround & Hsweep).
    destruct (interpolate_name_step name st st1 Hplain Hranked Hround)
      as (Hplain1 & Hranked1 & Hkeys1 & Hw1).
    destruct (IH st1 Hplain1 Hranked1 Hsweep) as (Hplain' & Hranked' & Hkeys' & Hw').
    split; [done |]. split; [done |]. split; [auto |].
    destruct Hw1 as [Hw1 | [Hw1 _]]; [lia | by rewrite <- Hw1].
Qed.

(** A sweep that takes a pending variable of the lowest rank makes the
    weight smaller. *)
Lemma sweep_progress x names st st' :
  values_literal (done st) = true -> ranked rank environ st ->
  (forall dep, is_Some (notdone st !! dep) -> rank x <= rank dep) ->
  x ∈ names ->
  sweep environ names st = Returns st' ->
  weight (notdone st') < weight (notdone st).
Proof.
  revert st. induction names as [|name names IH];
    intros st Hplain Hranked Hlowest Hx Hsweep; [by apply elem_of_nil in Hx |].
  apply sweep_cons_Returns in Hsweep as (st1 & Hround & Hsweep).
  destruct (interpolate_name_step name st st1 Hplain Hranked Hround)
    as (Hplain1 & Hranked1 & Hkeys1 & Hw1).
  destruct (sweep_step names st1 st' Hplain1 Hranked1 Hsweep) as (_ & _ & _ & Hw').
  destruct Hw1 as [Hw1 | [Hsame (dep & Hpending & Hdep)]]; [lia |].
  destruct (decide (x = name)) as [-> | Hne].
  - specialize (Hlowest dep Hpending). lia.
  - rewrite <- Hsame. apply (IH st1); try done.
    + intros dep' Hdep'. apply Hlowest. by rewrite <- Hsame.
    + apply elem_of_cons in Hx as [? | ?]; done.
Qed.

Lemma lowest_rank (pending : gmap string string) :
  pending <> ∅ ->
  exists x, is_Some (pending !! x) /\
            forall dep, is_Some (pending !! dep) -> rank x <= rank dep.
Proof.
  induction pending as [|i v pending Hi IH] using map_ind; [done |].
  intros _. destruct (decide (pending = ∅)) as [-> | Hne].
  - exists i. split; [by rewrite lookup_insert_eq |].
    intros dep [w Hdep]. apply lookup_insert_Some in Hdep as [[<- _] | [_ Hdep]];
      [done | by rewrite lookup_empty in Hdep].
  - destruct (IH Hne) as (x & Hx & Hlowest).
    destruct (decide (rank i <= rank x)) as [Hle | Hgt].
    + exists i. split; [by rewrite lookup_insert_eq |].
      intros dep [w Hdep].
      apply lookup_insert_Some in Hdep as [[<- _] | [_ Hdep]]; [done |].
      specialize (Hlowest dep (mk_is_Some _ _ Hdep)). lia.
    + exists x. split.
      * rewrite lookup_insert_ne; [done |]. intros <-.
        rewrite Hi in Hx. by destruct Hx.
      * intros dep [w Hdep].
        apply lookup_insert_Some in Hdep as [[<- _] | [_ Hdep]]; [lia |].
        apply Hlowest. by eexists.
Qed.

Lemma sweep_decreases st st' :
  values_literal (done st) = true -> ranked rank environ st ->
  notdone st <> ∅ ->
  sweep environ (keys (notdone st)) st = Returns st' ->
  weight (notdone st') < weight (notdone st).
Proof.
  intros Hplain Hranked Hne Hsweep.
  destruct (lowest_rank (notdone st) Hne) as (x & [text Hx] & Hlowest).
  apply (sweep_progress x (keys (notdone st))); try done.
  rewrite keys_permutation. unfold dict_keys.
  apply list_elem_of_fmap. exists (x, text). split; [done |].
  by apply elem_of_map_to_list.
Qed.

(** ** Values with a single reference *)

Lemma interpolate_name_single_reference name text st st' :
  notdone st !! name = Some text ->
  single_reference text = true ->
  interpolate_name environ name st = Returns st' ->
  notdone st' = delete name (notdone st) \/ notdone st' = notdone st.
Proof.
  intros Hname Hsingle. unfold interpolate_name, single_reference in *.
  rewrite Hname. destruct (find_reference text) as [m|]; [| by intros [= <-]; left].
  destruct (lookup_reference environ name (m_group1 m) st)
    as [[[item|] d]|e|] eqn:Hl; try done; simpl; intros [= <-].
  - left. rewrite substitute_pending.
    by destruct (contains_dollar (m_post m)).
  - by right.
Qed.

Lemma sweep_subseteq names st st' :
  (forall name text, notdone st !! name = Some text -> single_reference text = true) ->
  sweep environ names st = Returns st' -> notdone st' ⊆ notdone st.
Proof.
  revert st. induction names as [|name names IH]; intros st Hsingle Hsweep.
  - by injection Hsweep as <-.
  - apply sweep_cons_Returns in Hsweep as (st1 & Hround & Hsweep).
    destruct (interpolate_name_Returns _ _ _ Hround) as [text Hname].
    assert (Hsub : notdone st1 ⊆ notdone st).
    { destruct (interpolate_name_single_reference name text st st1 Hname
                  (Hsingle name text Hname) Hround) as [-> | ->];
        [apply delete_subseteq | done]. }
    transitivity (notdone st1); [| done].
    apply IH; [| done]. intros k t Hk. apply (Hsingle k t).
    by eapply lookup_weaken.
Qed.

(** ** The loop *)

Lemma interpolate_name_not_OutOfFuel name st :
  interpolate_name environ name st <> OutOfFuel.
Proof.
  unfold interpolate_name. destruct (notdone st !! name); [| done].
  destruct (find_reference _); [| done].
  assert (H : lookup_reference environ name (m_group1 m) st <> OutOfFuel).
  { unfold lookup_reference.
    repeat (case_match; try done). }
  destruct (lookup_reference environ name (m_group1 m) st) as [[[item|] d]|e|];
    done.
Qed.

Lemma sweep_not_OutOfFuel names st : sweep environ names st <> OutOfFuel.
Proof.
  revert st. induction names as [|name names IH]; intros st; [done |].
  simpl. pose proof (interpolate_name_not_OutOfFuel name st).
  destruct (interpolate_name environ name st) as [st1| |]; try done. apply IH.
Qed.

Lemma interpolate_ranked fuel st :
  values_literal (done st) = true -> ranked rank environ st ->
  weight (notdone st) <= fuel ->
  (exists st', interpolate keys environ fuel st = Returns st' /\ notdone st' = ∅) \/
  (exists e, interpolate keys environ fuel st = Raises e).
Proof.
  revert st.
  induction fuel as [|fuel IH]; intros st Hplain Hranked Hweight.
  - left. exists st. assert (notdone st = ∅) by (apply weight_empty_inv; lia).
    simpl. by rewrite bool_decide_eq_true_2.
  - simpl. case_bool_decide as Hempty; [left; by exists st |].
    pose proof (sweep_not_OutOfFuel (keys (notdone st)) st) as Hfuel.
    destruct (sweep environ (keys (notdone st)) st) as [st1|e|] eqn:Hsweep;
      [| right; by exists e | done].
    destruct (sweep_step _ st st1 Hplain Hranked Hsweep) as (Hplain1 & Hranked1 & _).
    pose proof (sweep_decreases st st1 Hplain Hranked Hempty Hsweep).
    simpl. apply IH; [done | done | lia].
Qed.

(** C1, as the code has it.  Let the dollars in the strings of [done] and
    of the environment be literal (each is followed by a character that is
    neither an opening bracket nor white space), and let every pending
    value be in order for some ranking of the variables: the dollars before
    the reference that a round takes are literal, and every pending
    variable that a round is put off for ranks below the variable of the
    round, so that the references between the pending variables form no
    cycle.  Then the loop ends, with an empty pending set or with the
    [KeyError] of a prefixed name, within as many sweeps as the weight of
    the pending set: the number of pending variables and of the dollars in
    their values that stand before an opening bracket.  Every sweep that
    ends without an exception keeps the conditions, adds no pending
    variable and makes the weight smaller; and it makes the pending set
    itself smaller when no pending value has a dollar after its first
    reference.  This holds in whichever order a sweep takes the
    variables. *)
Theorem interpolate_terminates (st : state) (fuel : nat) :
  values_literal (done st) = true ->
  ranked rank environ st ->
  weight (notdone st) <= fuel ->
  ((exists st', interpolate keys environ fuel st = Returns st' /\ notdone st' = ∅) \/
   (exists n, n ∈ renamed_variables /\
              interpolate keys environ fuel st = Raises (KeyError ("PY_" +:+ n)))) /\
  (forall st', notdone st <> ∅ ->
     sweep environ (keys (notdone st)) st = Returns st' ->
     values_literal (done st') = true /\ ranked rank environ st' /\
     dom (notdone st') ⊆ dom (notdone st) /\
     weight (notdone st') < weight (notdone st) /\
     ((forall name text, notdone st !! name = Some text ->
                         single_reference text = true) ->
      notdone st' ⊆ notdone st /\ size (notdone st') < size (notdone st))).
Proof.
  intros Hplain Hranked Hfuel. split.
  - destruct (interpolate_ranked fuel st Hplain Hranked Hfuel) as [H | [e He]];
      [by left | right].
    destruct (interpolate_Raises keys environ fuel st e keys_permutation He)
      as (n & Hn & -> & _).
    by exists n.
  - intros st' Hne Hsweep.
    destruct (sweep_step _ st st' Hplain Hranked Hsweep)
      as (Hplain' & Hranked' & Hkeys & _).
    pose proof (sweep_decreases st st' Hplain Hranked Hne Hsweep) as Hless.
    split; [done |]. split; [done |]. split; [| split; [done |]].
    + intros k Hk. apply elem_of_dom. apply Hkeys. by apply elem_of_dom.
    + intros Hsingle.
      pose proof (sweep_subseteq _ st st' Hsingle Hsweep) as Hsub.
      split; [done |]. apply map_subset_size. split; [done |].
      intros Hsup. assert (notdone st' = notdone st) as Heq
          by by apply (anti_symm (⊆)).
      rewrite Heq in Hless. lia.
Qed.

End Termination.

Lemma interpolate_terminates_witness :
  let environ : gmap string string := {[ "HOME" := "/root" ]} in
  let st := read_lines ["prefix = /usr"; "exec_prefix = ${prefix}"; "VERSION = 3.2";
                        "LIBDEST = $(exec_prefix)/lib/python$(VERSION)";
                        "CC = gcc -I$$HOME/include"; "CFLAGS = $(OPT)";
                        "BASECFLAGS = $(CFLAGS) -fwrapv";
                        "PY_CFLAGS = $(BASECFLAGS) $(LDFLAGS)";
                        "LD = $(CC) -shared $(PY_CFLAGS)";
                        "RUN = echo $$x $(CC)"; "CACHE = $(HOME)/.cache"] in
  done st = {[ "prefix" := VStr "/usr"; "VERSION" := VStr "3.2";
               "CC" := VStr "gcc -I$HOME/include" ]} /\
  weight (notdone st) = 19 /\
  ((exists st', interpolate dict_keys environ 19 st = Returns st' /\ notdone st' = ∅) \/
   (exists n, n ∈ renamed_variables /\
              interpolate dict_keys environ 19 st = Raises (KeyError ("PY_" +:+ n)))).
Proof.
  intros environ st.
  assert (Henviron : forall n item, environ !! n = Some item ->
                                    dollars_literal item = true).
  { intros n item H. by apply lookup_singleton_Some in H as [_ <-]. }
  split; [reflexivity |]. split; [reflexivity |].
  destruct (interpolate_terminates dict_keys environ
              (fun name => if bool_decide (name ∈ ["LIBDEST"; "BASECFLAGS"]) then 1
                           else if String.eqb name "PY_CFLAGS" then 2
                           else if String.eqb name "LD" then 3 else 0)
              (fun d => reflexivity _) Henviron st 19)
    as [Hends _];
    [reflexivity | by apply well_ranked_ranked | vm_compute; lia |].
  exact Hends.
Defined.

(** A sweep that changes nothing is repeated for ever. *)
Lemma interpolate_stuck keys env st :
  notdone st <> ∅ ->
  sweep env (keys (notdone st)) st = Returns st ->
  forall fuel, interpolate keys env fuel st = OutOfFuel.
Proof.
  intros Hne Hsweep. induction fuel as [|fuel IH]; simpl;
    rewrite bool_decide_eq_false_2 by done; [done |].
  by rewrite Hsweep.
Qed.

(** C1 as stated fails: two pending variables that refer to each other are
    both left for a later sweep, by every sweep; no sweep makes the pending
    set smaller and the loop does not end, in whichever order the two are
    taken. *)
Lemma cyclic_references_counterexample :
  let fp := ["AA = $(BB)"; "BB = $(AA)"] in
  let st := read_lines fp in
  notdone st = {[ "AA" := "$(BB)"; "BB" := "$(AA)" ]} /\
  sweep ∅ (dict_keys (notdone st)) st = Returns st /\
  ~ (exists fuel, parse_makefile dict_keys ∅ fuel fp None <> OutOfFuel) /\
  ~ (exists fuel, parse_makefile (fun d => reverse (dict_keys d)) ∅ fuel fp None
                  <> OutOfFuel).
Proof.
  intros fp st.
  assert (Hne : notdone st <> ∅).
  { intros H. apply (f_equal (fun d => d !! "AA")) in H. by vm_compute in H. }
  split; [reflexivity |]. split; [reflexivity |].
  split; intros [fuel Hends]; apply Hends; unfold parse_makefile; fold fp st.
  - by rewrite (interpolate_stuck dict_keys ∅ st Hne).
  - by rewrite (interpolate_stuck (fun d => reverse (dict_keys d)) ∅ st Hne).
Qed.

(** Without a cycle the pending set need not become smaller at every
    sweep either: a variable with two references is still pending after the
    sweep that resolves the first. *)
Example pending_set_need_not_shrink :
  let st := read_lines ["AA = 1"; "BB = 2"; "XX = $(AA) $(BB)"] in
  let st' := State (done st) {[ "XX" := "1 $(BB)" ]} in
  notdone st = {[ "XX" := "$(AA) $(BB)" ]} /\
  sweep ∅ (dict_keys (notdone st)) st = Returns st' /\
  size (notdone st') = size (notdone st) /\
  weight (notdone st') < weight (notdone st).
Proof.
  intros st st'. split; [reflexivity |]. split; [reflexivity |].
  split; [reflexivity |]. vm_compute. lia.
Qed.

(** Without a cycle between the variables the loop need not end when a
    dollar of [done] stands before an opening bracket.  [AA = $$(BB)]
    gives [AA] the text [$(BB)], which is no reference of the file; put in
    the place of [$(AA)] in the value of [BB] it becomes a reference of
    [BB] to itself. *)
Example dollar_in_done_loops :
  let fp := ["AA = $$(BB)"; "BB = $(AA) $(CC)"; "CC = 1"] in
  done (read_lines fp) = {[ "AA" := VStr "$(BB)"; "CC" := VInt 1 ]} /\
  notdone (read_lines fp) = {[ "BB" := "$(AA) $(CC)" ]} /\
  forall fuel, parse_makefile dict_keys ∅ fuel fp None = OutOfFuel.
Proof.
  intros fp. split; [reflexivity |]. split; [reflexivity |].
  set (st1 := State (done (read_lines fp)) {[ "BB" := "$(BB) $(CC)" ]}).
  assert (Hne : notdone st1 <> ∅).
  { intros H. apply (f_equal (fun d => d !! "BB")) in H. by vm_compute in H. }
  assert (Hstuck : forall fuel, interpolate dict_keys ∅ fuel st1 = OutOfFuel).
  { by apply interpolate_stuck. }
  intros [|fuel]; [reflexivity |]. unfold parse_makefile.
  change (interpolate dict_keys ∅ (S fuel) (read_lines fp))
    with (interpolate dict_keys ∅ fuel st1).
  by rewrite Hstuck.
Qed.

(** The same when a dollar that is not literal stands before the
    reference that a round takes: in [BB = x$$(CC) $(DD)] the round on [BB]
    puts the text [(BB)] of [CC] behind the dollar that is left of
    [$$]. *)
Example dollar_before_reference_loops :
  let fp := ["BB = x$$(CC) $(DD)"; "CC = (BB)"; "DD = 1"] in
  done (read_lines fp) = {[ "CC" := VStr "(BB)"; "DD" := VInt 1 ]} /\
  notdone (read_lines fp) = {[ "BB" := "x$$(CC) $(DD)" ]} /\
  forall fuel, parse_makefile dict_keys ∅ fuel fp None = OutOfFuel.
Proof.
  intros fp. split; [reflexivity |]. split; [reflexivity |].
  set (st1 := State (done (read_lines fp)) {[ "BB" := "x$(BB) $(DD)" ]}).
  assert (Hne : notdone st1 <> ∅).
  { intros H. apply (f_equal (fun d => d !! "BB")) in H. by vm_compute in H. }
  assert (Hstuck : forall fuel, interpolate dict_keys ∅ fuel st1 = OutOfFuel).
  { by apply interpolate_stuck. }
  intros [|fuel]; [reflexivity |]. unfold parse_makefile.
  change (interpolate dict_keys ∅ (S fuel) (read_lines fp))
    with (interpolate dict_keys ∅ fuel st1).
  by rewrite Hstuck.
Qed.

(** The same when a string of [done] ends with a dollar. *)
Example dollar_at_end_loops :
  let fp := ["XX = a$$"; "YY = $(XX)(YY) $(ZZ)"] in
  done (read_lines fp) = {[ "XX" := VStr "a$" ]} /\
  notdone (read_lines fp) = {[ "YY" := "$(XX)(YY) $(ZZ)" ]} /\
  forall fuel, parse_makefile dict_keys ∅ fuel fp None = OutOfFuel.
Proof.
  intros fp. split; [reflexivity |]. split; [reflexivity |].
  set (st1 := State (done (read_lines fp)) {[ "YY" := "a$(YY) $(ZZ)" ]}).
  assert (Hne : notdone st1 <> ∅).
  { intros H. apply (f_equal (fun d => d !! "YY")) in H. by vm_compute in H. }
  assert (Hstuck : forall fuel, interpolate dict_keys ∅ fuel st1 = OutOfFuel).
  { by apply interpolate_stuck. }
  intros [|fuel]; [reflexivity |]. unfold parse_makefile.
  change (interpolate dict_keys ∅ (S fuel) (read_lines fp))
    with (interpolate dict_keys ∅ fuel st1).
  by rewrite Hstuck.
Qed.

(** The same when a dollar stands before white space: [strip] leaves the
    dollar of [x$ $(AA)] at the end of the string that [done] gets for
    [XX]. *)
Example dollar_before_space_loops :
  let fp := ["XX = x$ $(AA)"; "YY = $(XX)(YY) $(ZZ)"] in
  done (read_lines fp) = ∅ /\
  notdone (read_lines fp) = {[ "XX" := "x$ $(AA)"; "YY" := "$(XX)(YY) $(ZZ)" ]} /\
  forall fuel, parse_makefile dict_keys ∅ fuel fp None = OutOfFuel.
Proof.
  intros fp. split; [reflexivity |]. split; [reflexivity |].
  set (st2 := State {[ "AA" := VStr ""; "XX" := VStr "x$" ]}
                    {[ "YY" := "x$(YY) $(ZZ)" ]}).
  assert (Hne : notdone st2 <> ∅).
  { intros H. apply (f_equal (fun d => d !! "YY")) in H. by vm_compute in H. }
  assert (Hstuck : forall fuel, interpolate dict_keys ∅ fuel st2 = OutOfFuel).
  { by apply interpolate_stuck. }
  intros [|[|fuel]]; [reflexivity | reflexivity |]. unfold parse_makefile.
  change (interpolate dict_keys ∅ (S (S fuel)) (read_lines fp))
    with (interpolate dict_keys ∅ fuel st2).
  by rewrite Hstuck.
Qed.
